(** * Text Relation Map Visualizer: the graph synchronisation protocol

    A shallow embedding of the React client ([frontend/src/App.js] and
    [frontend/src/components/Graph.js]) together with a model of the
    session broadcaster and merge function of the backend, and the
    properties of the incremental graph-merge protocol between them. *)

From Stdlib Require Import NArith ZArith Ascii String List Bool Lia.
From stdpp Require Import gmap list strings.

Local Open Scope N_scope.

(** ** JavaScript strings

    A JavaScript string is a sequence of UTF-16 code units. *)

Abbreviation code_unit := N (only parsing).
Abbreviation jsstring := (list N) (only parsing).

(** An ASCII literal as a JavaScript string. *)
Definition lit (s : string) : jsstring :=
  map N_of_ascii (list_ascii_of_string s).

(** Same, with every apostrophe standing for a double quote, to write
    JSON text legibly. *)
Definition jtext (s : string) : jsstring :=
  map (λ c, if c =? 39 then 34 else c) (lit s).

(** WhiteSpace and LineTerminator code points, the ones
    [String.prototype.trim] strips: TAB, LF, VT, FF, CR, SP, NBSP,
    U+1680, U+2000..U+200A, LS, PS, U+202F, U+205F, U+3000 and the BOM. *)
Definition is_trim_space (c : code_unit) : bool :=
  (c =? 9) || (c =? 10) || (c =? 11) || (c =? 12) || (c =? 13) ||
  (c =? 32) || (c =? 160) || (c =? 5760) ||
  ((8192 <=? c) && (c <=? 8202)) ||
  (c =? 8232) || (c =? 8233) || (c =? 8239) || (c =? 8287) ||
  (c =? 12288) || (c =? 65279).

Fixpoint trimStart (s : jsstring) : jsstring :=
  match s with
  | [] => []
  | c :: r => if is_trim_space c then trimStart r else s
  end.

Definition trimEnd (s : jsstring) : jsstring := rev (trimStart (rev s)).

Definition trim (s : jsstring) : jsstring := trimEnd (trimStart s).

(** Truthiness of a string: every string but the empty one. *)
Definition truthy_string (s : jsstring) : bool :=
  match s with [] => false | _ :: _ => true end.

(** ** JSON values, [JSON.parse] and [JSON.stringify] *)

(** A number keeps its lexeme: the client never computes with one. *)
#[warnings="-register-all"]
Inductive json : Type :=
  | JNull
  | JBool (b : bool)
  | JNum (lexeme : jsstring)
  | JStr (s : jsstring)
  | JArr (items : list json)
  | JObj (members : list (jsstring * json)).

(** Insignificant whitespace of the JSON grammar: TAB, LF, CR, SP. *)
Definition is_json_ws (c : code_unit) : bool :=
  (c =? 9) || (c =? 10) || (c =? 13) || (c =? 32).

Fixpoint skip_ws (s : jsstring) : jsstring :=
  match s with
  | [] => []
  | c :: r => if is_json_ws c then skip_ws r else s
  end.

Definition is_digit (c : code_unit) : bool := (48 <=? c) && (c <=? 57).

Definition hex_value (c : code_unit) : option N :=
  if is_digit c then Some (c - 48)
  else if (65 <=? c) && (c <=? 70) then Some (c - 55)
  else if (97 <=? c) && (c <=? 102) then Some (c - 87)
  else None.

Definition hex4 (a b c d : code_unit) : option code_unit :=
  match hex_value a, hex_value b, hex_value c, hex_value d with
  | Some x, Some y, Some z, Some w => Some (4096 * x + 256 * y + 16 * z + w)
  | _, _, _, _ => None
  end.

(** The character after a backslash, [u] apart. *)
Definition unescape (e : code_unit) : option code_unit :=
  if e =? 34 then Some 34          (* quotation mark *)
  else if e =? 92 then Some 92     (* reverse solidus *)
  else if e =? 47 then Some 47     (* solidus *)
  else if e =? 98 then Some 8      (* b: backspace *)
  else if e =? 102 then Some 12    (* f: form feed *)
  else if e =? 110 then Some 10    (* n: line feed *)
  else if e =? 114 then Some 13    (* r: carriage return *)
  else if e =? 116 then Some 9     (* t: tab *)
  else None.

(** The characters of a string literal, after its opening quote, up to and
    including the closing quote. [acc] holds the decoded characters in
    reverse. *)
Fixpoint parse_chars (s acc : jsstring) : option (jsstring * jsstring) :=
  match s with
  | [] => None
  | c :: r =>
      if c =? 34 then Some (rev acc, r)
      else if c =? 92 then
        match r with
        | [] => None
        | e :: r1 =>
            if e =? 117 then
              match r1 with
              | h1 :: h2 :: h3 :: h4 :: r2 =>
                  match hex4 h1 h2 h3 h4 with
                  | Some u => parse_chars r2 (u :: acc)
                  | None => None
                  end
              | _ => None
              end
            else
              match unescape e with
              | Some u => parse_chars r1 (u :: acc)
              | None => None
              end
        end
      else if c <? 32 then None
      else parse_chars r (c :: acc)
  end.

Fixpoint span_digits (s : jsstring) : jsstring * jsstring :=
  match s with
  | [] => ([], [])
  | c :: r =>
      if is_digit c then let '(ds, r') := span_digits r in (c :: ds, r')
      else ([], s)
  end.

Definition parse_int (s : jsstring) : option (jsstring * jsstring) :=
  match s with
  | [] => None
  | c :: r =>
      if c =? 48 then Some ([48], r)
      else if is_digit c then let '(ds, r') := span_digits r in Some (c :: ds, r')
      else None
  end.

Definition parse_frac (s : jsstring) : option (jsstring * jsstring) :=
  match s with
  | c :: r =>
      if c =? 46 then
        match span_digits r with
        | ([], _) => None
        | (ds, r') => Some (c :: ds, r')
        end
      else Some ([], s)
  | [] => Some ([], s)
  end.

Definition parse_exp (s : jsstring) : option (jsstring * jsstring) :=
  match s with
  | c :: r =>
      if (c =? 101) || (c =? 69) then
        let '(sg, r1) :=
          match r with
          | d :: r' => if (d =? 43) || (d =? 45) then ([d], r') else ([], r)
          | [] => ([], r)
          end in
        match span_digits r1 with
        | ([], _) => None
        | (ds, r2) => Some (c :: sg ++ ds, r2)
        end
      else Some ([], s)
  | [] => Some ([], s)
  end.

Definition parse_number (s : jsstring) : option (jsstring * jsstring) :=
  let '(sg, s1) :=
    match s with
    | c :: r => if c =? 45 then ([c], r) else ([], s)
    | [] => ([], s)
    end in
  match parse_int s1 with
  | None => None
  | Some (i, s2) =>
      match parse_frac s2 with
      | None => None
      | Some (f, s3) =>
          match parse_exp s3 with
          | None => None
          | Some (e, s4) => Some (sg ++ i ++ f ++ e, s4)
          end
      end
  end.

Fixpoint strip_prefix (p s : jsstring) : option jsstring :=
  match p, s with
  | [], _ => Some s
  | a :: p', b :: s' => if a =? b then strip_prefix p' s' else None
  | _ :: _, [] => None
  end.

(** The value grammar. Every call spends one unit of [fuel]; [JSON_parse]
    below gives enough of it for the whole text. *)
Fixpoint parse_value (fuel : nat) (s : jsstring) {struct fuel}
  : option (json * jsstring) :=
  match fuel with
  | O => None
  | S fuel =>
      match skip_ws s with
      | [] => None
      | c :: r =>
          if c =? 123 then                       (* { *)
            match skip_ws r with
            | d :: r' =>
                if d =? 125 then Some (JObj [], r')
                else
                  match parse_members fuel r with
                  | Some (ms, r'') => Some (JObj ms, r'')
                  | None => None
                  end
            | [] => None
            end
          else if c =? 91 then                   (* [ *)
            match skip_ws r with
            | d :: r' =>
                if d =? 93 then Some (JArr [], r')
                else
                  match parse_elements fuel r with
                  | Some (vs, r'') => Some (JArr vs, r'')
                  | None => None
                  end
            | [] => None
            end
          else if c =? 34 then                   (* string *)
            match parse_chars r [] with
            | Some (str, r') => Some (JStr str, r')
            | None => None
            end
          else if c =? 116 then                  (* true *)
            match strip_prefix (lit "rue") r with
            | Some r' => Some (JBool true, r')
            | None => None
            end
          else if c =? 102 then                  (* false *)
            match strip_prefix (lit "alse") r with
            | Some r' => Some (JBool false, r')
            | None => None
            end
          else if c =? 110 then                  (* null *)
            match strip_prefix (lit "ull") r with
            | Some r' => Some (JNull, r')
            | None => None
            end
          else
            match parse_number (c :: r) with
            | Some (n, r') => Some (JNum n, r')
            | None => None
            end
      end
  end

with parse_elements (fuel : nat) (s : jsstring) {struct fuel}
  : option (list json * jsstring) :=
  match fuel with
  | O => None
  | S fuel =>
      match parse_value fuel s with
      | None => None
      | Some (v, r) =>
          match skip_ws r with
          | c :: r' =>
              if c =? 44 then
                match parse_elements fuel r' with
                | Some (vs, r'') => Some (v :: vs, r'')
                | None => None
                end
              else if c =? 93 then Some ([v], r')
              else None
          | [] => None
          end
      end
  end

with parse_members (fuel : nat) (s : jsstring) {struct fuel}
  : option (list (jsstring * json) * jsstring) :=
  match fuel with
  | O => None
  | S fuel =>
      match skip_ws s with
      | q :: r0 =>
          if q =? 34 then
            match parse_chars r0 [] with
            | None => None
            | Some (k, r1) =>
                match skip_ws r1 with
                | c :: r2 =>
                    if c =? 58 then
                      match parse_value fuel r2 with
                      | None => None
                      | Some (v, r3) =>
                          match skip_ws r3 with
                          | d :: r4 =>
                              if d =? 44 then
                                match parse_members fuel r4 with
                                | Some (ms, r5) => Some ((k, v) :: ms, r5)
                                | None => None
                                end
                              else if d =? 125 then Some ([(k, v)], r4)
                              else None
                          | [] => None
                          end
                      end
                    else None
                | [] => None
                end
            end
          else None
      | [] => None
      end
  end.

(** [JSON.parse(text)]: [None] stands for the [SyntaxError] it throws. *)
Definition JSON_parse (text : jsstring) : option json :=
  match parse_value (2 * length text + 2) text with
  | Some (v, r) => match skip_ws r with [] => Some v | _ :: _ => None end
  | None => None
  end.

(** [QuoteJSONString]: the escapes of [JSON.stringify]. *)
Definition hex_digit (n : N) : code_unit :=
  if n <? 10 then 48 + n else 87 + n.

Definition unicode_escape (c : code_unit) : jsstring :=
  [92; 117; hex_digit (c / 4096); hex_digit ((c / 256) mod 16);
   hex_digit ((c / 16) mod 16); hex_digit (c mod 16)].

Definition is_high_surrogate (c : code_unit) : bool :=
  (55296 <=? c) && (c <=? 56319).
Definition is_low_surrogate (c : code_unit) : bool :=
  (56320 <=? c) && (c <=? 57343).

Fixpoint quote_chars (s : jsstring) : jsstring :=
  match s with
  | [] => []
  | c :: r =>
      if c =? 8 then [92; 98] ++ quote_chars r
      else if c =? 9 then [92; 116] ++ quote_chars r
      else if c =? 10 then [92; 110] ++ quote_chars r
      else if c =? 12 then [92; 102] ++ quote_chars r
      else if c =? 13 then [92; 114] ++ quote_chars r
      else if c =? 34 then [92; 34] ++ quote_chars r
      else if c =? 92 then [92; 92] ++ quote_chars r
      else if c <? 32 then unicode_escape c ++ quote_chars r
      else if is_high_surrogate c then
        match r with
        | d :: r' =>
            if is_low_surrogate d then c :: d :: quote_chars r'
            else unicode_escape c ++ quote_chars r
        | [] => unicode_escape c
        end
      else if is_low_surrogate c then unicode_escape c ++ quote_chars r
      else c :: quote_chars r
  end.

Definition QuoteJSONString (s : jsstring) : jsstring :=
  [34] ++ quote_chars s ++ [34].

(** [JSON.stringify(value)] without indentation. *)
Fixpoint JSON_stringify (v : json) : jsstring :=
  match v with
  | JNull => lit "null"
  | JBool true => lit "true"
  | JBool false => lit "false"
  | JNum n => n
  | JStr s => QuoteJSONString s
  | JArr items =>
      [91] ++
      (fix go (l : list json) : jsstring :=
         match l with
         | [] => []
         | x :: l' =>
             match l' with
             | [] => JSON_stringify x
             | _ :: _ => JSON_stringify x ++ [44] ++ go l'
             end
         end) items
      ++ [93]
  | JObj members =>
      [123] ++
      (fix go (l : list (jsstring * json)) : jsstring :=
         match l with
         | [] => []
         | (k, x) :: l' =>
             match l' with
             | [] => QuoteJSONString k ++ [58] ++ JSON_stringify x
             | _ :: _ => QuoteJSONString k ++ [58] ++ JSON_stringify x ++ [44] ++ go l'
             end
         end) members
      ++ [125]
  end.

(** The two loops inside [JSON_stringify], by name. *)
Definition stringify_items (items : list json) : jsstring :=
  (fix go (l : list json) : jsstring :=
     match l with
     | [] => []
     | x :: l' =>
         match l' with
         | [] => JSON_stringify x
         | _ :: _ => JSON_stringify x ++ [44] ++ go l'
         end
     end) items.

Definition stringify_members (members : list (jsstring * json)) : jsstring :=
  (fix go (l : list (jsstring * json)) : jsstring :=
     match l with
     | [] => []
     | (k, x) :: l' =>
         match l' with
         | [] => QuoteJSONString k ++ [58] ++ JSON_stringify x
         | _ :: _ => QuoteJSONString k ++ [58] ++ JSON_stringify x ++ [44] ++ go l'
         end
     end) members.

(** A value without numbers: the protocol has none. *)
Fixpoint plain (v : json) : bool :=
  match v with
  | JNum _ => false
  | JArr items => forallb plain items
  | JObj members => forallb (λ kv, plain kv.2) members
  | _ => true
  end.

(** The fuel [parse_value] needs for a serialised value. *)
Fixpoint size (v : json) : nat :=
  match v with
  | JArr items => S (list_sum (map (λ x, S (size x)) items))
  | JObj members => S (list_sum (map (λ kv, S (size kv.2)) members))
  | _ => 1
  end.

(** The first character of a serialised value starts a value. *)
Definition starts_value (c : N) : bool :=
  (c =? 110) || (c =? 116) || (c =? 102) || (c =? 34) || (c =? 91) || (c =? 123).

(** ** JavaScript values and completions *)

Inductive error : Type := SyntaxError | TypeError.

(** How the evaluation of a piece of code ends: normally, with a value, or
    abruptly, with an exception. *)
Inductive completion (A : Type) : Type :=
  | Normal (a : A)
  | Throw (e : error).
Arguments Normal {A} a.
Arguments Throw {A} e.

(** A value of the handler: a parsed JSON value, or [undefined] ([None]). *)
Abbreviation value := (option json) (only parsing).

(** An own property of a parsed object. When a key occurs twice in the
    text, [JSON.parse] keeps the last one. *)
Fixpoint own_prop (members : list (jsstring * json)) (k : jsstring) : value :=
  match members with
  | [] => None
  | (k', v) :: ms =>
      match own_prop ms k with
      | Some w => Some w
      | None => if decide (k' = k) then Some v else None
      end
  end.

(** [v.k], for the property names the client reads ([type], [data],
    [nodes], [edges], [id]): none of them is an index, [length] or a member
    of a prototype, so only a parsed object can have one; reading a property
    of [null] or [undefined] throws a [TypeError]. *)
Definition get (v : value) (k : jsstring) : completion value :=
  match v with
  | None | Some JNull => Throw TypeError
  | Some (JObj ms) => Normal (own_prop ms k)
  | Some _ => Normal None
  end.

(** [v === 'literal']. *)
Definition strict_eq (v : value) (s : jsstring) : bool :=
  match v with
  | Some (JStr t) => bool_decide (t = s)
  | _ => false
  end.

(** ** The Cytoscape core, as [Graph.js] uses it

    The graph library is an external collaborator. The component calls
    four of its operations: [getElementById], [add], [elements().remove()]
    and [layout(...).run()]. The core is modelled as the collection of the
    elements it was given, in order, each found again under the string in
    its [data.id]. The core takes every element it is given: the guard
    against a second element under one id is the component's own. The
    positions a layout computes are left out, and only the number of
    layout runs is kept. *)

(** The string under [data.k] of an element, when there is one. *)
Definition data_string (k : jsstring) (ele : json) : option jsstring :=
  match get (Some ele) (lit "data") with
  | Normal d =>
      match get d k with
      | Normal (Some (JStr s)) => Some s
      | _ => None
      end
  | Throw _ => None
  end.

Module Cy.

Record core : Type := Core { elements : list json; layout_runs : nat }.

(** [cytoscape({ container, style, layout, ... })]: no element yet. *)
Definition create : core := Core [] 0.

(** The id of an element. *)
Definition id (ele : json) : option jsstring := data_string (lit "id") ele.

(** [cy.getElementById(i)]: the collection of the elements with id [i],
    empty when there is none. *)
Definition getElementById (cy : core) (i : value) : list json :=
  match i with
  | Some (JStr s) => filter (λ e, id e = Some s) (elements cy)
  | _ => []
  end.

(** [cy.add(ele)]. *)
Definition add (cy : core) (ele : json) : core :=
  Core (elements cy ++ [ele]) (layout_runs cy).

(** [cy.elements().remove()]. *)
Definition remove_elements (cy : core) : core :=
  Core [] (layout_runs cy).

(** [cy.layout({...}).run()]. *)
Definition run_layout (cy : core) : core :=
  Core (elements cy) (S (layout_runs cy)).

End Cy.

(** ** Code that updates the core and may throw *)

Definition eff (A : Type) : Type := Cy.core → Cy.core * completion A.

Global Instance eff_ret : MRet eff := λ A a cy, (cy, Normal a).

Global Instance eff_bind : MBind eff := λ A B k c cy,
  match c cy with
  | (cy', Normal a) => k a cy'
  | (cy', Throw e) => (cy', Throw e)
  end.

Definition throw {A} (e : error) : eff A := λ cy, (cy, Throw e).

Definition lift {A} (c : completion A) : eff A := λ cy, (cy, c).

Definition update (f : Cy.core → Cy.core) : eff unit := λ cy, (f cy, Normal ()).

Definition read {A} (f : Cy.core → A) : eff A := λ cy, (cy, Normal (f cy)).

(** ** [Graph.js]: the WebSocket message handler *)

(** The callback of both [forEach] loops:
    [ele => { if (!cy.getElementById(ele.data.id).length) cy.add(ele); }] *)
Definition add_if_absent (ele : json) : eff unit :=
  d ← lift (get (Some ele) (lit "data"));
  i ← lift (get d (lit "id"));
  found ← read (λ cy, Cy.getElementById cy i);
  if (length found =? 0)%nat then update (λ cy, Cy.add cy ele) else mret ().

Fixpoint for_each (cb : json → eff unit) (items : list json) : eff unit :=
  match items with
  | [] => mret ()
  | x :: r => cb x;; for_each cb r
  end.

(** [v.forEach(cb)]: only an array has the method; on anything else the
    call throws a [TypeError]. *)
Definition forEach (v : value) (cb : json → eff unit) : eff unit :=
  match v with
  | Some (JArr items) => for_each cb items
  | _ => throw TypeError
  end.

(** The body of [if (cyRef.current) { ... }] of the first branch. *)
Definition merge_elements (nodes edges : value) : eff unit :=
  forEach nodes add_if_absent;;
  forEach edges add_if_absent;;
  update Cy.run_layout.

(** The handler after [JSON.parse], on the parsed [message]; [cyRef] is
    [cyRef.current], [None] for [null]. *)
Definition on_parsed (message : json) (cyRef : option Cy.core)
  : option Cy.core * completion unit :=
  match get (Some message) (lit "type") with
  | Throw e => (cyRef, Throw e)
  | Normal type =>
      if strict_eq type (lit "initial") || strict_eq type (lit "update") then
        match get (Some message) (lit "data") with
        | Throw e => (cyRef, Throw e)
        | Normal data =>
            (* const { nodes, edges } = message.data *)
            match get data (lit "nodes"), get data (lit "edges") with
            | Normal nodes, Normal edges =>
                match cyRef with
                | Some cy =>
                    let '(cy', c) := merge_elements nodes edges cy in
                    (Some cy', c)
                | None => (None, Normal ())
                end
            | Throw e, _ | _, Throw e => (cyRef, Throw e)
            end
        end
      else if strict_eq type (lit "clear") then
        match cyRef with
        | Some cy => (Some (Cy.remove_elements cy), Normal ())
        | None => (None, Normal ())
        end
      else (cyRef, Normal ())
  end.

(** [ws.onmessage = (event) => { ... }], on [event.data]. *)
Definition onmessage (data : jsstring) (cyRef : option Cy.core)
  : option Cy.core * completion unit :=
  match JSON_parse data with
  | None => (cyRef, Throw SyntaxError)
  | Some message => on_parsed message cyRef
  end.

(** The elements on display: none while there is no core. *)
Definition shown (cyRef : option Cy.core) : list json :=
  match cyRef with
  | Some cy => Cy.elements cy
  | None => []
  end.

(** ** [App.js]: the form, the buttons and the socket *)

(** [WebSocket.readyState]. *)
Inductive ready_state : Type := CONNECTING | OPEN | CLOSING | CLOSED.

Definition is_open (r : ready_state) : bool :=
  match r with OPEN => true | _ => false end.

(** The state of the page: the two [useState] cells of [App], the socket
    behind [wsRef.current] and the core behind [cyRef.current] ([None] for
    [null]), and the frames handed to [send] so far, oldest first. *)
Record state : Type := State {
  inputText : jsstring;
  isConnected : bool;
  wsRef : option ready_state;
  cyRef : option Cy.core;
  sent : list jsstring
}.

Definition initial_state : state :=
  {| inputText := []; isConnected := false; wsRef := None; cyRef := None;
     sent := [] |}.

(** [{ type: 'text', text: s }] and [{ type: 'clear' }]. *)
Definition text_message (s : jsstring) : json :=
  JObj [(lit "type", JStr (lit "text")); (lit "text", JStr s)].

Definition clear_message : json :=
  JObj [(lit "type", JStr (lit "clear"))].

(** [wsRef.current && wsRef.current.readyState === WebSocket.OPEN]. *)
Definition socket_open (st : state) : bool :=
  match wsRef st with
  | Some r => is_open r
  | None => false
  end.

(** [wsRef.current.send(frame)], called on an open socket only. *)
Definition send (frame : jsstring) (st : state) : state :=
  {| inputText := inputText st; isConnected := isConnected st;
     wsRef := wsRef st; cyRef := cyRef st; sent := sent st ++ [frame] |}.

Definition setInputText (v : jsstring) (st : state) : state :=
  {| inputText := v; isConnected := isConnected st;
     wsRef := wsRef st; cyRef := cyRef st; sent := sent st |}.

Definition setIsConnected (b : bool) (st : state) : state :=
  {| inputText := inputText st; isConnected := b;
     wsRef := wsRef st; cyRef := cyRef st; sent := sent st |}.

Definition set_wsRef (w : option ready_state) (st : state) : state :=
  {| inputText := inputText st; isConnected := isConnected st;
     wsRef := w; cyRef := cyRef st; sent := sent st |}.

Definition set_cyRef (c : option Cy.core) (st : state) : state :=
  {| inputText := inputText st; isConnected := isConnected st;
     wsRef := wsRef st; cyRef := c; sent := sent st |}.

Definition handleSubmit (st : state) : state :=
  if truthy_string (trim (inputText st)) && socket_open st then
    setInputText []
      (send (JSON_stringify (text_message (inputText st))) st)
  else st.

Definition handleClear (st : state) : state :=
  if socket_open st then send (JSON_stringify clear_message) st else st.

Definition handleExampleClick (exampleText : jsstring) (st : state) : state :=
  setInputText exampleText st.

Definition examples : list jsstring :=
  [ lit "John bought a new car from the dealership.";
    lit "Apple released a new iPhone. The company announced record sales.";
    lit "The scientist discovered a new planet orbiting a distant star.";
    lit "Sarah works for Microsoft. She manages the Azure team in Seattle." ].

(** What happens to the page. *)
Inductive event : Type :=
  | Mount (container : bool)      (* the effect of [Graph] runs *)
  | Unmount                       (* its cleanup runs *)
  | Change (v : jsstring)         (* the textarea changes *)
  | Submit                        (* the form is submitted *)
  | ClickClear
  | ClickExample (i : nat)
  | WsOpen
  | WsClose
  | WsError
  | WsMessage (data : jsstring).

(** The effect of [Graph]: the core is created when there is a container
    and no core yet; a new socket is opened and stored in [wsRef]. *)
Definition mount (container : bool) (st : state) : state :=
  let st1 :=
    match cyRef st with
    | None => if container then set_cyRef (Some Cy.create) st else st
    | Some _ => st
    end in
  set_wsRef (Some CONNECTING) st1.

(** The cleanup: [if (ws.readyState === WebSocket.OPEN) ws.close()]. *)
Definition unmount (st : state) : state :=
  if socket_open st then set_wsRef (Some CLOSING) st else st.

Definition set_ready (r : ready_state) (st : state) : state :=
  match wsRef st with
  | Some _ => set_wsRef (Some r) st
  | None => st
  end.

(** One event. An exception that escapes the message handler is reported
    by the browser and the page goes on: what the handler did before it
    threw stays done. *)
Definition step (st : state) (e : event) : state :=
  match e with
  | Mount container => mount container st
  | Unmount => unmount st
  | Change v => setInputText v st
  | Submit => handleSubmit st
  | ClickClear => handleClear st
  | ClickExample i =>
      match examples !! i with
      | Some exampleText => handleExampleClick exampleText st
      | None => st
      end
  | WsOpen => setIsConnected true (set_ready OPEN st)
  | WsClose => setIsConnected false (set_ready CLOSED st)
  | WsError => setIsConnected false st
  | WsMessage data => set_cyRef (fst (onmessage data (cyRef st))) st
  end.

Definition run (es : list event) (st : state) : state :=
  fold_left step es st.

(** ** The wire format of the graph

    Node element: an object whose [data] has [id], [label] and [type];
    edge element: an object whose [data] has [id], [source], [target] and
    [label]. The stylesheet of [Graph.js] reads [label] and [type]. *)

Record node : Type := Node {
  node_id : jsstring;
  node_label : jsstring;
  node_type : jsstring
}.

Record edge : Type := Edge {
  edge_id : jsstring;
  edge_source : jsstring;
  edge_target : jsstring;
  edge_label : jsstring
}.

Definition node_element (n : node) : json :=
  JObj [(lit "data",
         JObj [(lit "id", JStr (node_id n));
               (lit "label", JStr (node_label n));
               (lit "type", JStr (node_type n))])].

Definition edge_element (e : edge) : json :=
  JObj [(lit "data",
         JObj [(lit "id", JStr (edge_id e));
               (lit "source", JStr (edge_source e));
               (lit "target", JStr (edge_target e));
               (lit "label", JStr (edge_label e))])].

(** An [initial] or [update] message. *)
Definition graph_message (type : jsstring) (nodes : list node) (edges : list edge)
  : json :=
  JObj [(lit "type", JStr type);
        (lit "data",
         JObj [(lit "nodes", JArr (node_element <$> nodes));
               (lit "edges", JArr (edge_element <$> edges))])].

(** The [type] of a parsed message, when it is an object that has one and
    it is a string. *)
Definition message_type (message : json) : option jsstring :=
  match get (Some message) (lit "type") with
  | Normal (Some (JStr t)) => Some t
  | _ => None
  end.

(** The ids of the elements on display. *)
Definition shown_ids (cyRef : option Cy.core) : list jsstring :=
  omap Cy.id (shown cyRef).

(** An element with a string id: the id the core finds it under. *)
Definition identified (ele : json) : Prop := is_Some (Cy.id ele).

(** Every element of the list is in the core already. *)
Definition all_present (items : list json) (cy : Cy.core) : Prop :=
  Forall (λ e, ∃ s, Cy.id e = Some s ∧ s ∈ omap Cy.id (Cy.elements cy)) items.

(** A message that carries a batch: an object whose [data] holds the two
    arrays. *)
Definition graph_batch (message : json) (nodes edges : list json) : Prop :=
  ∃ data, get (Some message) (lit "data") = Normal data ∧
          get data (lit "nodes") = Normal (Some (JArr nodes)) ∧
          get data (lit "edges") = Normal (Some (JArr edges)).

(** * The backend: session broadcaster and merge function

    The backend ([backend/main.py]) is not among the sources. Everything in
    this module is modelled from the specification, section by section. *)

Module Server.

(** ** Data model *)

(** Modelled from the spec: the backend ([backend/main.py]) is not among
    the sources, so its data model follows section 3: the closed
    enumeration of entity types. *)
Inductive entity_type : Type := PERSON | ORG | GPE | PRODUCT | OTHER.

(** Modelled from the spec: the type names of section 3, [backend/main.py]
    being absent, as they go into the [type] of a node element. *)
Definition type_name (t : entity_type) : jsstring :=
  match t with
  | PERSON => lit "PERSON"
  | ORG => lit "ORG"
  | GPE => lit "GPE"
  | PRODUCT => lit "PRODUCT"
  | OTHER => lit "OTHER"
  end.

(** Modelled from the spec: the Entity of section 3, with the id the
    extraction derived for it. *)
Record Entity : Type := {
  entity_id : jsstring;
  entity_label : jsstring;
  entity_kind : entity_type
}.

(** Modelled from the spec: the Relation of section 3. *)
Record Relation : Type := {
  relation_id : jsstring;
  source_id : jsstring;
  target_id : jsstring;
  relation_label : jsstring
}.

(** Modelled from the spec: the shared Graph of section 3, a set of
    entities and a set of relations, each element under its id. *)
Record Graph : Type := {
  entities : gmap (list N) Entity;
  relations : gmap (list N) Relation
}.

(** Modelled from the spec: the graph after a reset (section 3), the
    backend's own being absent. *)
Definition empty_graph : Graph := {| entities := ∅; relations := ∅ |}.

(** Modelled from the spec: the known-id sets of section 2, the node ids
    and edge ids already sent. *)
Record Known : Type := {
  known_nodes : gset (list N);
  known_edges : gset (list N)
}.

(** Modelled from the spec: the current graph's known-id sets that
    section 4.1 passes to the merge function of the absent backend. *)
Definition known (g : Graph) : Known :=
  {| known_nodes := dom (entities g); known_edges := dom (relations g) |}.

(** ** Graph Merge Function *)

(** Modelled from the spec: section 4.2. An entity is new iff its id is
    not already known. *)
Definition new_entities (k : Known) (es : list Entity) : list Entity :=
  filter (λ e, entity_id e ∉ known_nodes k) es.

(** Modelled from the spec: the ids of a list of entities, and of a list of
    relations, for the unions of section 4.2 (backend absent). *)
Definition entity_ids (es : list Entity) : gset (list N) :=
  list_to_set (entity_id <$> es).

(** Modelled from the spec: see [entity_ids]. *)
Definition relation_ids (rs : list Relation) : gset (list N) :=
  list_to_set (relation_id <$> rs).

(** Modelled from the spec: section 4.2. A relation is new iff its id is
    not known and both endpoint ids are among the previously known and
    the newly added entity ids. *)
Definition new_relations (k : Known) (es : list Entity) (rs : list Relation)
  : list Relation :=
  filter (λ r, (relation_id r ∉ known_edges k) ∧
               (source_id r ∈ known_nodes k ∪ entity_ids (new_entities k es)) ∧
               (target_id r ∈ known_nodes k ∪ entity_ids (new_entities k es))) rs.

(** Modelled from the spec: section 4.2, the merge function, from the
    known ids and an extracted batch to the new entities, the new
    relations and the updated known ids. *)
Definition merge (k : Known) (es : list Entity) (rs : list Relation)
  : list Entity * list Relation * Known :=
  let ne := new_entities k es in
  let nr := new_relations k es rs in
  (ne, nr,
   {| known_nodes := known_nodes k ∪ entity_ids ne;
      known_edges := known_edges k ∪ relation_ids nr |}).

(** Modelled from the spec: entities are immutable once created, so an
    element never replaces the one already under its id. *)
Definition extend (g : Graph) (ne : list Entity) (nr : list Relation) : Graph :=
  {| entities := entities g ∪ list_to_map ((λ e, (entity_id e, e)) <$> ne);
     relations := relations g ∪ list_to_map ((λ r, (relation_id r, r)) <$> nr) |}.

(** ** Messages *)

(** Modelled from the spec: section 6, the node element of an entity and
    the edge element of a relation, as the absent backend serialises them. *)
Definition node_of (e : Entity) : node :=
  Node (entity_id e) (entity_label e) (type_name (entity_kind e)).

(** Modelled from the spec: see [node_of]. *)
Definition edge_of (r : Relation) : edge :=
  Edge (relation_id r) (source_id r) (target_id r) (relation_label r).

(** Modelled from the spec: section 6, the [update] message of a delta
    and the [initial] message of the full graph. *)
Definition update_message (ne : list Entity) (nr : list Relation) : json :=
  graph_message (lit "update") (node_of <$> ne) (edge_of <$> nr).

(** Modelled from the spec: section 6, the [initial] message, the full
    current graph; the order of the elements does not matter. *)
Definition initial_message (g : Graph) : json :=
  graph_message (lit "initial")
    (node_of <$> (map_to_list (entities g)).*2)
    (edge_of <$> (map_to_list (relations g)).*2).

(** Modelled from the spec: section 6, the two client messages; any
    other frame is malformed. *)
Inductive client_message : Type :=
  | Text (text : jsstring)
  | Clear.

(** Modelled from the spec: section 6, how the absent backend reads a
    frame: an object whose [type] is [text] and whose [text] is a string,
    or an object whose [type] is [clear]. *)
Definition decode (frame : jsstring) : option client_message :=
  match JSON_parse frame with
  | Some (JObj members) =>
      match own_prop members (lit "type") with
      | Some (JStr t) =>
          if decide (t = lit "text") then
            match own_prop members (lit "text") with
            | Some (JStr s) => Some (Text s)
            | _ => None
            end
          else if decide (t = lit "clear") then Some Clear
          else None
      | _ => None
      end
  | _ => None
  end.

(** ** Session Broadcaster *)

Abbreviation conn := nat (only parsing).

(** Modelled from the spec: section 4.1, the live connections and the
    single shared graph. *)
Record broadcaster : Type := {
  graph : Graph;
  live : list nat
}.

(** Modelled from the spec: the server process starts with no graph state
    and no connection (non-goals of section 1). *)
Definition start : broadcaster := {| graph := empty_graph; live := [] |}.

(** A frame handed to a connection. *)
Abbreviation delivery := (nat * list N)%type (only parsing).

(** Modelled from the spec: section 4.1, a payload goes to every live
    connection; a connection found closed at send time is dropped, the
    others still get the payload. *)
Definition broadcast (payload : jsstring) (closed : list conn) (conns : list conn)
  : list conn * list delivery :=
  let open := filter (λ c, c ∉ closed) conns in
  (open, (λ c, (c, payload)) <$> open).

(** Modelled from the spec: a connection leaves the live set (sections
    4.1 and 7). *)
Definition drop (c : conn) (st : broadcaster) : broadcaster :=
  {| graph := graph st; live := filter (λ c', c' ≠ c) (live st) |}.

(** Modelled from the spec: section 7 leaves two ways to treat a
    malformed frame. *)
Inductive malformed_policy : Type := Ignore | CloseConnection.

(** Modelled from the spec: what reaches the WebSocket endpoint of the
    absent backend (sections 4.1 and 6). [closed] lists the connections
    that will be found closed when the server sends to them. *)
Inductive input : Type :=
  | Accept (c : conn)
  | Receive (c : conn) (frame : jsstring) (closed : list conn)
  | Disconnect (c : conn).

Section Broadcaster.

(** The extraction collaborator: opaque, and it may fail (sections 1
    and 7). *)
Variable extract : list N → option (list Entity * list Relation).
Variable on_malformed : malformed_policy.

(** Modelled from the spec: section 4.1, a [text] message. Blank text
    is a no-op; a failed extraction is logged and nothing is sent; the
    delta, when it is not empty, is broadcast as an [update]. *)
Definition handle_text (s : jsstring) (closed : list conn) (st : broadcaster)
  : broadcaster * list delivery :=
  if decide (trim s = []) then (st, [])
  else
    match extract s with
    | None => (st, [])
    | Some (es, rs) =>
        let '(ne, nr, _) := merge (known (graph st)) es rs in
        match ne, nr with
        | [], [] => (st, [])
        | _, _ =>
            let '(open, out) :=
              broadcast (JSON_stringify (update_message ne nr)) closed (live st) in
            ({| graph := extend (graph st) ne nr; live := open |}, out)
        end
    end.

(** Modelled from the spec: section 4.1, a [clear] message empties the
    graph and is broadcast. *)
Definition handle_clear (closed : list conn) (st : broadcaster)
  : broadcaster * list delivery :=
  let '(open, out) :=
    broadcast (JSON_stringify clear_message) closed (live st) in
  ({| graph := empty_graph; live := open |}, out).

(** Modelled from the spec: sections 4.1, 6 and 7, one input. On accept
    the connection gets the full current graph as [initial]. *)
Definition handle (st : broadcaster) (i : input) : broadcaster * list delivery :=
  match i with
  | Accept c =>
      ({| graph := graph st; live := c :: filter (λ c', c' ≠ c) (live st) |},
       [(c, JSON_stringify (initial_message (graph st)))])
  | Disconnect c => (drop c st, [])
  | Receive c frame closed =>
      match decode frame with
      | Some (Text s) => handle_text s closed st
      | Some Clear => handle_clear closed st
      | None =>
          match on_malformed with
          | Ignore => (st, [])
          | CloseConnection => (drop c st, [])
          end
      end
  end.

(** Modelled from the spec: the inputs are handled one at a time (the
    single serialization point of section 5). *)
Definition after (st : broadcaster) (inputs : list input) : broadcaster :=
  fold_left (λ st i, fst (handle st i)) inputs st.

End Broadcaster.

(** Modelled from the spec: the data-model invariant of section 3, every
    relation's endpoints exist in the entity set. *)
Definition well_formed (g : Graph) : Prop :=
  ∀ i r, relations g !! i = Some r →
         source_id r ∈ dom (entities g) ∧ target_id r ∈ dom (entities g).

(** Modelled from the spec: the graph is a set of entities by id (section
    3), so every entity is stored under its own id. *)
Definition keyed (g : Graph) : Prop :=
  ∀ i e, entities g !! i = Some e → entity_id e = i.

End Server.

(** ** Edges and their endpoints on the page *)

(** No edge dangles: the source and the target of every element that has
    one are ids of elements on display. *)
Definition endpoints_present (els : list json) : Prop :=
  ∀ ele s, ele ∈ els →
    data_string (lit "source") ele = Some s ∨ data_string (lit "target") ele = Some s →
    s ∈ omap Cy.id els.

(** * Server and page together

    The page of one connection handles, in order, every frame the server
    hands to that connection. *)

Module System.

Definition deliver (c : nat) (page : state) (out : list (nat * list N)) : state :=
  fold_left (λ p d, if decide (d.1 = c) then step p (WsMessage d.2) else p) out page.

Section Run.
Variable extract : list N → option (list Server.Entity * list Server.Relation).
Variable on_malformed : Server.malformed_policy.
Variable c : nat.

Definition sys_step (sys : Server.broadcaster * state) (i : Server.input)
  : Server.broadcaster * state :=
  let '(st, out) := Server.handle extract on_malformed sys.1 i in
  (st, deliver c sys.2 out).

Definition sys_run (page : state) (inputs : list Server.input)
  : Server.broadcaster * state :=
  fold_left sys_step inputs (Server.start, page).

End Run.

(** The page follows the graph [g]: it has a core, no edge on display
    dangles, and every entity of [g] is on display. *)
Definition follows (g : Server.Graph) (p : state) : Prop :=
  is_Some (cyRef p) ∧ endpoints_present (shown (cyRef p)) ∧
  ∀ i, i ∈ dom (Server.entities g) → i ∈ shown_ids (cyRef p).

(** The page of connection [c] and the server: the shared graph is well
    formed, the page has a core and shows no dangling edge, and while [c]
    is live the page follows the shared graph. *)
Definition synced (c : nat) (sys : Server.broadcaster * state) : Prop :=
  Server.well_formed (Server.graph sys.1) ∧ Server.keyed (Server.graph sys.1) ∧
  is_Some (cyRef sys.2) ∧ endpoints_present (shown (cyRef sys.2)) ∧
  (c ∈ Server.live sys.1 → follows (Server.graph sys.1) sys.2).

End System.

(** The two frames of the protocol, client to server: the text, and the
    message it parses to. *)
Definition protocol_frame (frame : jsstring) : Prop :=
  (frame = jtext "{'type':'clear'}" ∧ JSON_parse frame = Some clear_message)
  ∨ ∃ s, frame = jtext "{'type':'text','text':" ++ QuoteJSONString s ++ jtext "}"
         ∧ JSON_parse frame = Some (text_message s).

(** * Concrete runs

    Inputs at which the properties below are exercised. *)

Definition john_update : jsstring :=
  jtext "{'type':'update','data':{'nodes':[{'data':{'id':'john','label':'John','type':'PERSON'}},{'data':{'id':'car','label':'car','type':'PRODUCT'}}],'edges':[{'data':{'id':'john_buy_car','source':'john','target':'car','label':'buy'}}]}}".

Definition john_nodes : list node :=
  [Node (lit "john") (lit "John") (lit "PERSON");
   Node (lit "car") (lit "car") (lit "PRODUCT")].

Definition john_edges : list edge :=
  [Edge (lit "john_buy_car") (lit "john") (lit "car") (lit "buy")].

Definition blank_page : state :=
  {| inputText := [32; 9; 10; 160; 8195]; isConnected := true;
     wsRef := Some OPEN; cyRef := Some Cy.create; sent := [] |}.

(** A page just loaded, with its socket open. *)
Definition fresh_page : state := run [Mount true; WsOpen] initial_state.

Definition john_page : state :=
  run [Mount true; WsOpen; WsMessage john_update] initial_state.

Definition ping_message : json :=
  JObj [(lit "type", JStr (lit "ping"));
        (lit "data", JObj [(lit "nodes", JArr [])])].

Module Example.
Import Server.

Definition john : Entity :=
  {| entity_id := lit "john"; entity_label := lit "John"; entity_kind := PERSON |}.
Definition car : Entity :=
  {| entity_id := lit "car"; entity_label := lit "car"; entity_kind := PRODUCT |}.
Definition bought : Relation :=
  {| relation_id := lit "john_buy_car"; source_id := lit "john";
     target_id := lit "car"; relation_label := lit "buy" |}.

(** An extraction that knows one sentence and fails on the rest. *)
Definition extract (text : jsstring) : option (list Entity * list Relation) :=
  if decide (text = lit "John bought a new car from the dealership.")
  then Some ([john; car], [bought])
  else None.

Definition john_frame : jsstring :=
  JSON_stringify (text_message (lit "John bought a new car from the dealership.")).

(** Three clients connected. *)
Definition three : broadcaster :=
  after extract Ignore start [Accept 1; Accept 2; Accept 3].

(** Two clients connected, one sentence merged. *)
Definition busy : broadcaster :=
  after extract Ignore start [Accept 1; Accept 2; Receive 1 john_frame []].

End Example.

(** * More of the client

    The events by kind, the messages by kind, and the stylesheet and the
    legend of [Graph.js]. *)

(** What the user does on the page: typing, the form and the buttons. *)
Definition user_event (e : event) : bool :=
  match e with
  | Change _ | Submit | ClickClear | ClickExample _ => true
  | _ => false
  end.

(** What the socket does to the page. *)
Definition socket_event (e : event) : bool :=
  match e with
  | WsOpen | WsClose | WsError | WsMessage _ => true
  | _ => false
  end.

(** A parsed message that takes the first branch of the handler:
    [message.type === 'initial' || message.type === 'update']. *)
Definition is_graph_message (message : json) : bool :=
  bool_decide (message_type message = Some (lit "initial"))
  || bool_decide (message_type message = Some (lit "update")).

(** A frame that takes the second branch: it parses, and
    [message.type === 'clear']. *)
Definition is_clear_frame (frame : jsstring) : bool :=
  match JSON_parse frame with
  | Some message => bool_decide (message_type message = Some (lit "clear"))
  | None => false
  end.

Definition is_clear_event (e : event) : bool :=
  match e with
  | WsMessage frame => is_clear_frame frame
  | _ => false
  end.

(** A frame that takes the first branch: it parses to a graph message. *)
Definition is_graph_frame (frame : jsstring) : bool :=
  match JSON_parse frame with
  | Some message => is_graph_message message
  | None => false
  end.

(** The code ran to its end. *)
Definition completes {A} (c : completion A) : bool :=
  match c with Normal _ => true | Throw _ => false end.

(** The socket reports that it is open. *)
Definition is_open_event (e : event) : bool :=
  match e with WsOpen => true | _ => false end.

(** The first element of a list that carries the id [s]. *)
Definition first_with_id (s : jsstring) (els : list json) : option json :=
  head (filter (λ e, Cy.id e = Some s) els).

(** ** The stylesheet of the core and the legend beside it

    The [style] array given to [cytoscape({...})]: rules in order, a later
    rule overriding an earlier one on the properties it declares. *)

Inductive group : Type := nodes_group | edges_group.

(** The five selectors of the stylesheet: [node], [node[type="t"]],
    [node:selected], [edge] and [edge:selected]. *)
Inductive selector : Type :=
  | sel_node
  | sel_node_type (t : jsstring)
  | sel_node_selected
  | sel_edge
  | sel_edge_selected.

(** The value of a style property: a string, or a number by its literal. *)
Inductive style_value : Type :=
  | Text (s : jsstring)
  | Number (literal : jsstring).

Record rule : Type := Rule {
  rule_selector : selector;
  rule_style : list (jsstring * style_value)
}.

Definition stylesheet : list rule :=
  [ Rule sel_node
      [ (lit "background-color", Text (lit "#667eea"));
        (lit "label", Text (lit "data(label)"));
        (lit "color", Text (lit "#333"));
        (lit "text-valign", Text (lit "center"));
        (lit "text-halign", Text (lit "center"));
        (lit "font-size", Text (lit "12px"));
        (lit "font-weight", Text (lit "bold"));
        (lit "width", Text (lit "label"));
        (lit "height", Text (lit "label"));
        (lit "padding", Text (lit "12px"));
        (lit "shape", Text (lit "roundrectangle"));
        (lit "border-width", Number (lit "2"));
        (lit "border-color", Text (lit "#5568d3"));
        (lit "text-wrap", Text (lit "wrap"));
        (lit "text-max-width", Text (lit "100px"));
        (lit "transition-property", Text (lit "background-color, border-color"));
        (lit "transition-duration", Text (lit "0.3s")) ];
    Rule (sel_node_type (lit "PERSON"))
      [ (lit "background-color", Text (lit "#4caf50"));
        (lit "border-color", Text (lit "#388e3c")) ];
    Rule (sel_node_type (lit "ORG"))
      [ (lit "background-color", Text (lit "#ff9800"));
        (lit "border-color", Text (lit "#f57c00")) ];
    Rule (sel_node_type (lit "GPE"))
      [ (lit "background-color", Text (lit "#2196f3"));
        (lit "border-color", Text (lit "#1976d2")) ];
    Rule (sel_node_type (lit "PRODUCT"))
      [ (lit "background-color", Text (lit "#e91e63"));
        (lit "border-color", Text (lit "#c2185b")) ];
    Rule sel_node_selected
      [ (lit "border-width", Number (lit "4"));
        (lit "border-color", Text (lit "#ffd700")) ];
    Rule sel_edge
      [ (lit "width", Number (lit "3"));
        (lit "line-color", Text (lit "#999"));
        (lit "target-arrow-color", Text (lit "#999"));
        (lit "target-arrow-shape", Text (lit "triangle"));
        (lit "curve-style", Text (lit "bezier"));
        (lit "label", Text (lit "data(label)"));
        (lit "font-size", Text (lit "10px"));
        (lit "text-background-color", Text (lit "#fff"));
        (lit "text-background-opacity", Number (lit "0.8"));
        (lit "text-background-padding", Text (lit "3px"));
        (lit "text-rotation", Text (lit "autorotate"));
        (lit "color", Text (lit "#555")) ];
    Rule sel_edge_selected
      [ (lit "line-color", Text (lit "#ffd700"));
        (lit "target-arrow-color", Text (lit "#ffd700"));
        (lit "width", Number (lit "5")) ] ].

(** The legend under the graph: a colour and the words beside it. *)
Definition legend : list (jsstring * jsstring) :=
  [ (lit "#4caf50", lit "Person");
    (lit "#ff9800", lit "Organization");
    (lit "#2196f3", lit "Location");
    (lit "#e91e63", lit "Product");
    (lit "#667eea", lit "Other") ].

(** An element as the core draws it. *)
Record drawn : Type := Drawn {
  drawn_group : group;
  drawn_element : json;
  drawn_selected : bool
}.

Definition is_nodes (g : group) : bool :=
  match g with nodes_group => true | edges_group => false end.

Definition matches (s : selector) (d : drawn) : bool :=
  match s with
  | sel_node => is_nodes (drawn_group d)
  | sel_node_type t =>
      is_nodes (drawn_group d)
      && bool_decide (data_string (lit "type") (drawn_element d) = Some t)
  | sel_node_selected => is_nodes (drawn_group d) && drawn_selected d
  | sel_edge => negb (is_nodes (drawn_group d))
  | sel_edge_selected => negb (is_nodes (drawn_group d)) && drawn_selected d
  end.

(** What a rule declares for a property. *)
Fixpoint declared (style : list (jsstring * style_value)) (property : jsstring)
  : option style_value :=
  match style with
  | [] => None
  | (p, v) :: rest =>
      if decide (p = property) then Some v else declared rest property
  end.

(** The value of a property on a drawn element: that of the last rule that
    matches the element and declares the property. *)
Definition computed (d : drawn) (property : jsstring) : option style_value :=
  fold_left
    (λ value r,
       if matches (rule_selector r) d then
         match declared (rule_style r) property with
         | Some v => Some v
         | None => value
         end
       else value)
    stylesheet None.

(** The types the stylesheet has a rule for. *)
Definition styled_types : list jsstring :=
  omap (λ r, match rule_selector r with
             | sel_node_type t => Some t
             | _ => None
             end) stylesheet.

(** The style of a node, rule by rule, once the type of the node is known
    by the equation [Hty]. *)
Ltac unfold_style Hty :=
  unfold computed;
  cbn [stylesheet fold_left matches rule_selector rule_style is_nodes
       drawn_group drawn_element drawn_selected andb negb];
  rewrite Hty.

Ltac styled_case Hty selected colour name position :=
  split; [|unfold_style Hty; repeat split; vm_compute; reflexivity];
  exists colour, name;
  split; [unfold_style Hty; destruct selected; vm_compute; reflexivity|];
  split; [by apply (list_elem_of_lookup_2 _ position)|].

(** ** More concrete runs *)

(** An [update] message without [data]. *)
Definition bare_update : jsstring := jtext "{'type':'update'}".


(** The same node as in [john_update], under another label. *)
Definition johnny_update : jsstring :=
  jtext "{'type':'update','data':{'nodes':[{'data':{'id':'john','label':'Johnny','type':'ORG'}}],'edges':[]}}".

(** The first node of [john_update]. *)
Definition john_element : json :=
  node_element (Node (lit "john") (lit "John") (lit "PERSON")).

(** A page with text typed in and an open socket. *)
Definition typing_page : state :=
  run [Mount true; WsOpen; Change (lit "  Sarah works for Microsoft. ")]
    initial_state.

(** * [JSON.parse] after [JSON.stringify] *)

Lemma hex_value_digit (n : N) : n < 16 → hex_value (hex_digit n) = Some n.
Proof.
  intros Hn. destruct n as [|p]; [reflexivity|].
  do 4 (destruct p as [p|p|]; try reflexivity; try lia).
Qed.

Lemma hex4_escape (c : N) :
  c < 65536 →
  hex4 (hex_digit (c / 4096)) (hex_digit ((c / 256) mod 16))
       (hex_digit ((c / 16) mod 16)) (hex_digit (c mod 16)) = Some c.
Proof.
  intros Hc. unfold hex4. rewrite !hex_value_digit.
  - f_equal. zify. Z.to_euclidean_division_equations. lia.
  - apply N.mod_lt. lia.
  - apply N.mod_lt. lia.
  - apply N.mod_lt. lia.
  - apply N.Div0.div_lt_upper_bound. lia.
Qed.

Lemma parse_chars_escape (c : N) (s acc : list N) :
  c < 65536 →
  parse_chars (unicode_escape c ++ s) acc = parse_chars s (c :: acc).
Proof.
  intros Hc. pose proof (hex4_escape c Hc) as Hhex. unfold unicode_escape.
  remember (hex_digit (c / 4096)) as h1.
  remember (hex_digit ((c / 256) mod 16)) as h2.
  remember (hex_digit ((c / 16) mod 16)) as h3.
  remember (hex_digit (c mod 16)) as h4.
  simpl. by rewrite Hhex.
Qed.

Lemma parse_chars_plain (c : N) (s acc : list N) :
  c ≠ 34 → c ≠ 92 → ¬ c < 32 →
  parse_chars (c :: s) acc = parse_chars s (c :: acc).
Proof.
  intros H34 H92 H32. simpl.
  destruct (N.eqb_spec c 34); [done|]. destruct (N.eqb_spec c 92); [done|].
  by destruct (N.ltb_spec c 32).
Qed.

Lemma parse_chars_quote_chars (n : nat) (s rest acc : list N) :
  (length s ≤ n)%nat →
  parse_chars (quote_chars s ++ 34 :: rest) acc = Some (rev acc ++ s, rest).
Proof.
  revert s acc. induction n as [|n IH]; intros s acc Hlen.
  { destruct s; [|simpl in Hlen; lia]. simpl. by rewrite app_nil_r. }
  destruct s as [|c r]; [simpl; by rewrite app_nil_r|]. simpl in Hlen.
  assert (Hr : parse_chars (quote_chars r ++ 34 :: rest) (c :: acc)
               = Some (rev acc ++ c :: r, rest)).
  { rewrite IH by lia. simpl. by rewrite <- app_assoc. }
  cbn [quote_chars].
  destruct (N.eqb_spec c 8) as [->|H8]; [exact Hr|].
  destruct (N.eqb_spec c 9) as [->|H9]; [exact Hr|].
  destruct (N.eqb_spec c 10) as [->|H10]; [exact Hr|].
  destruct (N.eqb_spec c 12) as [->|H12]; [exact Hr|].
  destruct (N.eqb_spec c 13) as [->|H13]; [exact Hr|].
  destruct (N.eqb_spec c 34) as [->|H34]; [exact Hr|].
  destruct (N.eqb_spec c 92) as [->|H92]; [exact Hr|].
  destruct (N.ltb_spec c 32) as [Hlt|Hge].
  { rewrite <- app_assoc, parse_chars_escape by lia. exact Hr. }
  unfold is_high_surrogate, is_low_surrogate.
  destruct (N.leb_spec 55296 c) as [Hh1|Hh1]; cbn [andb].
  - destruct (N.leb_spec c 56319) as [Hh2|Hh2]; cbn [andb].
    + destruct r as [|d r'].
      * rewrite parse_chars_escape by lia. exact Hr.
      * destruct (N.leb_spec 56320 d) as [Hl1|Hl1]; cbn [andb].
        -- destruct (N.leb_spec d 57343) as [Hl2|Hl2]; cbn [andb].
           ++ rewrite <- !app_comm_cons, !parse_chars_plain by lia. simpl in Hlen.
              rewrite IH by lia. simpl. by rewrite <- !app_assoc.
           ++ rewrite <- app_assoc, parse_chars_escape by lia. exact Hr.
        -- rewrite <- app_assoc, parse_chars_escape by lia. exact Hr.
    + destruct (N.leb_spec 56320 c) as [Hl1|Hl1]; cbn [andb].
      * destruct (N.leb_spec c 57343) as [Hl2|Hl2]; cbn [andb].
        -- rewrite <- app_assoc, parse_chars_escape by lia. exact Hr.
        -- rewrite <- app_comm_cons, parse_chars_plain by lia. exact Hr.
      * rewrite <- app_comm_cons, parse_chars_plain by lia. exact Hr.
  - destruct (N.leb_spec 56320 c) as [Hl1|Hl1]; cbn [andb]; [lia|].
    rewrite <- app_comm_cons, parse_chars_plain by lia. exact Hr.
Qed.

Lemma parse_chars_quoted (s rest : list N) :
  parse_chars (quote_chars s ++ 34 :: rest) [] = Some (s, rest).
Proof. by apply (parse_chars_quote_chars (length s)). Qed.

Lemma stringify_arr (items : list json) :
  JSON_stringify (JArr items) = 91 :: stringify_items items ++ [93].
Proof. reflexivity. Qed.

Lemma stringify_obj (members : list (jsstring * json)) :
  JSON_stringify (JObj members) = 123 :: stringify_members members ++ [125].
Proof. reflexivity. Qed.

Lemma stringify_items_cons (x : json) (l : list json) :
  stringify_items (x :: l)
  = JSON_stringify x ++ match l with [] => [] | _ :: _ => 44 :: stringify_items l end.
Proof. destruct l; simpl; [by rewrite app_nil_r | done]. Qed.

Lemma stringify_members_cons (k : jsstring) (x : json) (l : list (jsstring * json)) :
  stringify_members ((k, x) :: l)
  = 34 :: quote_chars k ++ 34 :: 58 :: JSON_stringify x
      ++ match l with [] => [] | _ :: _ => 44 :: stringify_members l end.
Proof.
  destruct l; simpl; unfold QuoteJSONString; simpl;
    rewrite <- ?app_assoc; simpl; by rewrite ?app_nil_r.
Qed.

Lemma stringify_head (v : json) :
  plain v = true →
  ∃ c r, JSON_stringify v = c :: r ∧ starts_value c = true.
Proof.
  destruct v as [|[]| | | |]; simpl; try done; intros _; eauto.
Qed.

Lemma size_pos (v : json) : (1 ≤ size v)%nat.
Proof. destruct v; simpl; lia. Qed.

Lemma starts_value_cases (c : N) :
  starts_value c = true →
  c = 110 ∨ c = 116 ∨ c = 102 ∨ c = 34 ∨ c = 91 ∨ c = 123.
Proof.
  unfold starts_value. rewrite !orb_true_iff, !N.eqb_eq. tauto.
Qed.

Lemma parse_value_array (fuel : nat) (c : N) (r : list N) :
  starts_value c = true →
  parse_value (S fuel) (91 :: c :: r)
  = match parse_elements fuel (c :: r) with
    | Some (vs, r') => Some (JArr vs, r')
    | None => None
    end.
Proof.
  intros Hc.
  destruct (starts_value_cases c Hc) as [-> | [-> | [-> | [-> | [-> | ->]]]]]; reflexivity.
Qed.

Lemma parse_value_object (fuel : nat) (r : list N) :
  parse_value (S fuel) (123 :: 34 :: r)
  = match parse_members fuel (34 :: r) with
    | Some (ms, r') => Some (JObj ms, r')
    | None => None
    end.
Proof. reflexivity. Qed.

Lemma parse_elements_step (fuel : nat) (s : list N) :
  parse_elements (S fuel) s
  = match parse_value fuel s with
    | None => None
    | Some (v, r) =>
        match skip_ws r with
        | c :: r' =>
            if c =? 44 then
              match parse_elements fuel r' with
              | Some (vs, r'') => Some (v :: vs, r'')
              | None => None
              end
            else if c =? 93 then Some ([v], r')
            else None
        | [] => None
        end
    end.
Proof. reflexivity. Qed.

Lemma parse_members_step (fuel : nat) (k : list N) (s : list N) :
  parse_members (S fuel) (34 :: quote_chars k ++ 34 :: 58 :: s)
  = match parse_value fuel s with
    | None => None
    | Some (v, r3) =>
        match skip_ws r3 with
        | d :: r4 =>
            if d =? 44 then
              match parse_members fuel r4 with
              | Some (ms, r5) => Some ((k, v) :: ms, r5)
              | None => None
              end
            else if d =? 125 then Some ([(k, v)], r4)
            else None
        | [] => None
        end
    end.
Proof.
  cbn [parse_members skip_ws]. change (is_json_ws 34) with false.
  change (34 =? 34) with true. cbn iota. rewrite parse_chars_quoted.
  reflexivity.
Qed.

Lemma parse_stringify_fuel (fuel : nat) :
  (∀ v rest, plain v = true → (size v ≤ fuel)%nat →
     parse_value fuel (JSON_stringify v ++ rest) = Some (v, rest))
  ∧ (∀ x l rest,
       forallb plain (x :: l) = true →
       (list_sum (map (λ x, S (size x)) (x :: l)) ≤ fuel)%nat →
       parse_elements fuel (stringify_items (x :: l) ++ 93 :: rest)
       = Some (x :: l, rest))
  ∧ (∀ k x l rest,
       forallb (λ kv, plain kv.2) ((k, x) :: l) = true →
       (list_sum (map (λ kv, S (size kv.2)) ((k, x) :: l)) ≤ fuel)%nat →
       parse_members fuel (stringify_members ((k, x) :: l) ++ 125 :: rest)
       = Some ((k, x) :: l, rest)).
Proof.
  induction fuel as [|fuel (IHv & IHe & IHm)].
  { repeat split.
    - intros v rest _ Hsize. pose proof (size_pos v). lia.
    - intros x l rest _ Hsize. simpl in Hsize. lia.
    - intros k x l rest _ Hsize. simpl in Hsize. lia. }
  repeat split.
  - intros v rest Hplain Hsize. destruct v as [|[]|n|s|items|members]; try done.
    + simpl. unfold QuoteJSONString. simpl. rewrite <- app_assoc. simpl.
      by rewrite parse_chars_quoted.
    + destruct items as [|x l]; [reflexivity|].
      rewrite stringify_arr. simpl in Hsize, Hplain.
      apply andb_true_iff in Hplain as [Hx Hl].
      destruct (stringify_head x Hx) as (c & r & Hhead & Hc).
      assert (∃ r', stringify_items (x :: l) = c :: r') as [r' Hr'].
      { rewrite stringify_items_cons, Hhead. simpl. eauto. }
      pose proof (IHe x l rest) as He. rewrite Hr' in He |- *.
      rewrite <- !app_comm_cons, <- app_assoc. simpl ([93] ++ rest).
      rewrite parse_value_array by done. rewrite !app_comm_cons.
      rewrite He; [done| |simpl; lia]. simpl. by rewrite Hx, Hl.
    + destruct members as [|[k x] l]; [reflexivity|].
      rewrite stringify_obj. simpl in Hsize.
      assert (∃ r', stringify_members ((k, x) :: l) = 34 :: r') as [r' Hr'].
      { rewrite stringify_members_cons. eauto. }
      pose proof (IHm k x l rest Hplain) as Hm. rewrite Hr' in Hm |- *.
      rewrite <- !app_comm_cons, <- app_assoc. simpl ([125] ++ rest).
      rewrite parse_value_object, !app_comm_cons. rewrite Hm; [done | simpl; lia].
  - intros x l rest Hplain Hsize. simpl in Hsize, Hplain.
    apply andb_true_iff in Hplain as [Hx Hl].
    rewrite parse_elements_step, stringify_items_cons, <- app_assoc.
    rewrite IHv by (done || lia).
    destruct l as [|y l']; [reflexivity|].
    rewrite <- app_comm_cons. cbn [skip_ws]. change (is_json_ws 44) with false.
    change (44 =? 44) with true. cbn iota.
    rewrite IHe; [done|done|simpl in *; lia].
  - intros k x l rest Hplain Hsize. simpl in Hsize, Hplain.
    apply andb_true_iff in Hplain as [Hx Hl].
    rewrite stringify_members_cons. rewrite <- !app_comm_cons, <- !app_assoc.
    rewrite <- !app_comm_cons. rewrite parse_members_step, <- app_assoc.
    rewrite IHv by (done || lia).
    destruct l as [|[k' y] l']; [reflexivity|].
    rewrite <- app_comm_cons. cbn [skip_ws]. change (is_json_ws 44) with false.
    change (44 =? 44) with true. cbn iota.
    rewrite IHm; [done|done|simpl in *; lia].
Qed.

Lemma size_bound (n : nat) (v : json) :
  plain v = true → (size v ≤ n)%nat →
  (size v + 1 ≤ 2 * length (JSON_stringify v))%nat.
Proof.
  revert v. induction n as [|n IH]; intros v Hplain Hsize.
  { pose proof (size_pos v). lia. }
  destruct v as [|[]|lexeme|s|items|members]; try done; try (simpl; lia).
  - rewrite stringify_arr. simpl in *. rewrite length_app. simpl.
    enough (list_sum (map (λ x, S (size x)) items)
            ≤ 2 * length (stringify_items items))%nat by lia.
    assert (Hn : (list_sum (map (λ x, S (size x)) items) ≤ n)%nat) by lia.
    clear Hsize. induction items as [|x l IHl]; [simpl; lia|].
    rewrite stringify_items_cons, length_app. simpl in Hplain, Hn |- *.
    apply andb_true_iff in Hplain as [Hx Hl].
    pose proof (IH x Hx ltac:(lia)). specialize (IHl Hl ltac:(lia)).
    destruct l; simpl in *; lia.
  - rewrite stringify_obj. simpl in *. rewrite length_app. simpl.
    enough (list_sum (map (λ kv, S (size kv.2)) members)
            ≤ 2 * length (stringify_members members))%nat by lia.
    assert (Hn : (list_sum (map (λ kv, S (size kv.2)) members) ≤ n)%nat) by lia.
    clear Hsize. induction members as [|[k x] l IHl]; [simpl; lia|].
    rewrite stringify_members_cons. simpl in Hplain, Hn |- *.
    rewrite length_app. simpl. rewrite length_app.
    apply andb_true_iff in Hplain as [Hx Hl].
    pose proof (IH x Hx ltac:(lia)). specialize (IHl Hl ltac:(lia)).
    destruct l; simpl in *; lia.
Qed.

(** Parsing the serialisation of a value without numbers gives the value
    back. *)
Lemma JSON_parse_stringify (v : json) :
  plain v = true → JSON_parse (JSON_stringify v) = Some v.
Proof.
  intros Hplain. unfold JSON_parse.
  pose proof (size_bound (size v) v Hplain ltac:(lia)) as Hb.
  pose proof (proj1 (parse_stringify_fuel (2 * length (JSON_stringify v) + 2))
                v [] Hplain ltac:(lia)) as Hp.
  rewrite app_nil_r in Hp. by rewrite Hp.
Qed.

Lemma text_message_roundtrip (s : jsstring) :
  JSON_parse (JSON_stringify (text_message s)) = Some (text_message s).
Proof. by apply JSON_parse_stringify. Qed.

Lemma graph_message_plain (type : jsstring) (nodes : list node) (edges : list edge) :
  plain (graph_message type nodes edges) = true.
Proof.
  simpl. rewrite !andb_true_r, andb_true_iff. split.
  - induction nodes; [done|]. simpl. done.
  - induction edges; [done|]. simpl. done.
Qed.

Lemma decode_text (s : jsstring) :
  Server.decode (JSON_stringify (text_message s)) = Some (Server.Text s).
Proof. unfold Server.decode. rewrite text_message_roundtrip. reflexivity. Qed.

(** * Properties of the client *)

(** ** Strings and values *)

Lemma strict_eq_true (v : option json) (s : jsstring) :
  strict_eq v s = true ↔ v = Some (JStr s).
Proof.
  destruct v as [[]|]; simpl; try (split; congruence).
  rewrite bool_decide_eq_true. split; congruence.
Qed.

Lemma strict_eq_message_type (m : json) (t : option json) (s : jsstring) :
  get (Some m) (lit "type") = Normal t →
  strict_eq t s = true ↔ message_type m = Some s.
Proof.
  intros Hget. unfold message_type. rewrite Hget, strict_eq_true.
  destruct t as [[]|]; split; congruence.
Qed.

(** ** The ids held by the core *)

Lemma id_gets (ele : json) (s : jsstring) :
  Cy.id ele = Some s →
  ∃ d, get (Some ele) (lit "data") = Normal d ∧
       get d (lit "id") = Normal (Some (JStr s)).
Proof.
  unfold Cy.id, data_string.
  destruct (get (Some ele) (lit "data")) as [d|]; [|done].
  destruct (get d (lit "id")) as [[[]|]|] eqn:Hid; try done.
  intros [= ->]. eauto.
Qed.

Lemma found_nil (els : list json) (s : jsstring) :
  filter (λ e, Cy.id e = Some s) els = [] ↔ s ∉ omap Cy.id els.
Proof.
  induction els as [|e els IH]; simpl.
  - split; [intros _; apply not_elem_of_nil | done].
  - rewrite filter_cons. destruct (Cy.id e) as [t|] eqn:He.
    + destruct (decide (Some t = Some s)) as [[= ->]|Hne].
      * split; [done | intros []; left].
      * rewrite IH, not_elem_of_cons. split; [|tauto].
        intros H; split; [congruence | done].
    + destruct (decide (None = Some s)); [done | exact IH].
Qed.

Lemma getElementById_length (cy : Cy.core) (s : jsstring) :
  (length (Cy.getElementById cy (Some (JStr s))) =? 0)%nat = true
  ↔ s ∉ omap Cy.id (Cy.elements cy).
Proof.
  unfold Cy.getElementById. rewrite Nat.eqb_eq, <- found_nil.
  split; [apply nil_length_inv | by intros ->].
Qed.

(** ** One element *)

Lemma add_if_absent_identified (ele : json) (s : jsstring) (cy : Cy.core) :
  Cy.id ele = Some s →
  add_if_absent ele cy =
    (if decide (s ∈ omap Cy.id (Cy.elements cy)) then cy else Cy.add cy ele,
     Normal ()).
Proof.
  intros Hid. destruct (id_gets _ _ Hid) as (d & Hd & Hi).
  unfold add_if_absent, mbind, eff_bind, lift, read, update, mret, eff_ret. rewrite Hd, Hi.
  destruct (length _ =? 0)%nat eqn:Hlen.
  - apply getElementById_length in Hlen. by rewrite decide_False.
  - rewrite decide_True; [done|].
    destruct (decide (s ∈ omap Cy.id (Cy.elements cy))) as [|Hn]; [done|].
    apply getElementById_length in Hn. congruence.
Qed.

(** The callback leaves the core as it is, or adds the element, and then
    the element has no id or an id that was free. *)
Lemma add_if_absent_cases (ele : json) (cy : Cy.core) :
  fst (add_if_absent ele cy) = cy ∨
  (fst (add_if_absent ele cy) = Cy.add cy ele ∧
   ∀ s, Cy.id ele = Some s → s ∉ omap Cy.id (Cy.elements cy)).
Proof.
  destruct (Cy.id ele) as [s|] eqn:Hid.
  - rewrite (add_if_absent_identified _ _ _ Hid). simpl.
    destruct (decide _) as [|Hn]; [by left|right].
    split; [done|]. by intros ? [= <-].
  - unfold add_if_absent, mbind, eff_bind, lift, read, update, mret, eff_ret.
    destruct (get (Some ele) (lit "data")) as [d|]; [|by left].
    destruct (get d (lit "id")) as [i|]; [|by left].
    destruct (length _ =? 0)%nat; [right|by left]. done.
Qed.

Lemma ids_add (cy : Cy.core) (ele : json) :
  omap Cy.id (Cy.elements (Cy.add cy ele)) =
  omap Cy.id (Cy.elements cy) ++ option_list (Cy.id ele).
Proof.
  simpl. rewrite omap_app. simpl. by destruct (Cy.id ele).
Qed.

Lemma add_if_absent_NoDup (ele : json) (cy : Cy.core) :
  NoDup (omap Cy.id (Cy.elements cy)) →
  NoDup (omap Cy.id (Cy.elements (fst (add_if_absent ele cy)))).
Proof.
  intros Hnd. destruct (add_if_absent_cases ele cy) as [->|[-> Hfree]]; [done|].
  rewrite ids_add. destruct (Cy.id ele) as [s|]; simpl.
  - apply NoDup_app. split; [done|]. split.
    + intros x Hx Hs. apply list_elem_of_singleton in Hs as ->. by apply (Hfree s).
    + apply NoDup_singleton.
  - by rewrite app_nil_r.
Qed.

(** ** The loops *)

Lemma for_each_NoDup (items : list json) (cy : Cy.core) :
  NoDup (omap Cy.id (Cy.elements cy)) →
  NoDup (omap Cy.id (Cy.elements (fst (for_each add_if_absent items cy)))).
Proof.
  revert cy. induction items as [|x items IH]; intros cy Hnd; [done|].
  simpl. unfold mbind, eff_bind.
  pose proof (add_if_absent_NoDup x cy Hnd) as Hx.
  destruct (add_if_absent x cy) as [cy' [[]|e]]; simpl in *; [|done].
  by apply IH.
Qed.

Lemma forEach_NoDup (v : option json) (cy : Cy.core) :
  NoDup (omap Cy.id (Cy.elements cy)) →
  NoDup (omap Cy.id (Cy.elements (fst (forEach v add_if_absent cy)))).
Proof.
  intros Hnd. destruct v as [[]|]; simpl; try done. by apply for_each_NoDup.
Qed.

Lemma merge_elements_NoDup (nodes edges : option json) (cy : Cy.core) :
  NoDup (omap Cy.id (Cy.elements cy)) →
  NoDup (omap Cy.id (Cy.elements (fst (merge_elements nodes edges cy)))).
Proof.
  intros Hnd. unfold merge_elements, mbind, eff_bind.
  pose proof (forEach_NoDup nodes cy Hnd) as H1.
  destruct (forEach nodes add_if_absent cy) as [cy1 [[]|e]]; simpl in *; [|done].
  pose proof (forEach_NoDup edges cy1 H1) as H2.
  destruct (forEach edges add_if_absent cy1) as [cy2 [[]|e]]; simpl in *; done.
Qed.

Lemma on_parsed_NoDup (message : json) (cyRef : option Cy.core) :
  NoDup (shown_ids cyRef) →
  NoDup (shown_ids (fst (on_parsed message cyRef))).
Proof.
  intros Hnd. unfold on_parsed.
  destruct (get (Some message) (lit "type")) as [type|]; [|done].
  destruct (_ || _).
  - destruct (get (Some message) (lit "data")) as [data|]; [|done].
    destruct (get data (lit "nodes")) as [nodes|], (get data (lit "edges")) as [edges|];
      try done.
    destruct cyRef as [cy|]; [|done].
    pose proof (merge_elements_NoDup nodes edges cy Hnd) as H.
    by destruct (merge_elements nodes edges cy).
  - destruct (strict_eq type (lit "clear")); [|done].
    destruct cyRef; simpl; [apply NoDup_nil_2 | done].
Qed.

Lemma onmessage_NoDup (data : jsstring) (cyRef : option Cy.core) :
  NoDup (shown_ids cyRef) →
  NoDup (shown_ids (fst (onmessage data cyRef))).
Proof.
  intros Hnd. unfold onmessage. destruct (JSON_parse data); [|done].
  by apply on_parsed_NoDup.
Qed.

Lemma add_if_absent_grows (ele : json) (cy : Cy.core) :
  omap Cy.id (Cy.elements cy) ⊆ omap Cy.id (Cy.elements (fst (add_if_absent ele cy))).
Proof.
  destruct (add_if_absent_cases ele cy) as [->|[-> _]]; [done|].
  rewrite ids_add. intros x Hx. apply elem_of_app. by left.
Qed.

Lemma for_each_grows (items : list json) (cy : Cy.core) :
  omap Cy.id (Cy.elements cy)
  ⊆ omap Cy.id (Cy.elements (fst (for_each add_if_absent items cy))).
Proof.
  revert cy. induction items as [|x items IH]; intros cy; [done|].
  simpl. unfold mbind, eff_bind. pose proof (add_if_absent_grows x cy) as Hx.
  destruct (add_if_absent x cy) as [cy' [[]|e]]; simpl in *; [|done].
  etrans; [exact Hx | apply IH].
Qed.

Lemma all_present_mono (items : list json) (cy cy' : Cy.core) :
  omap Cy.id (Cy.elements cy) ⊆ omap Cy.id (Cy.elements cy') →
  all_present items cy → all_present items cy'.
Proof.
  intros Hsub Hall. eapply Forall_impl; [exact Hall|].
  intros e (s & Hs & Hin). eauto.
Qed.

(** A loop over elements that are all present changes nothing. *)
Lemma for_each_absorb (items : list json) (cy : Cy.core) :
  all_present items cy → for_each add_if_absent items cy = (cy, Normal ()).
Proof.
  induction 1 as [|e items (s & Hs & Hin) _ IH]; [done|].
  simpl. unfold mbind, eff_bind. rewrite (add_if_absent_identified _ _ _ Hs).
  by rewrite decide_True.
Qed.

(** A loop over identified elements ends normally, and then all of them
    are present. *)
Lemma for_each_covers (items : list json) (cy : Cy.core) :
  Forall identified items →
  ∃ cy', for_each add_if_absent items cy = (cy', Normal ()) ∧
         all_present items cy'.
Proof.
  intros Hid. revert cy. induction Hid as [|e items [s Hs] _ IH]; intros cy.
  - exists cy. split; [done | constructor].
  - simpl. unfold mbind, eff_bind. rewrite (add_if_absent_identified _ _ _ Hs).
    set (cy1 := if decide _ then cy else Cy.add cy e).
    destruct (IH cy1) as (cy' & Hrun & Hall). exists cy'. split; [done|].
    constructor; [|done]. exists s. split; [done|].
    pose proof (for_each_grows items cy1) as Hsub. rewrite Hrun in Hsub.
    apply Hsub. subst cy1. destruct (decide _) as [|Hn]; [done|].
    rewrite ids_add, Hs. apply elem_of_app. right. by left.
Qed.

(** Merging a batch of identified elements a second time changes no
    element: only the layout runs again. *)
Lemma merge_elements_twice (nodes edges : list json) (cy : Cy.core) :
  Forall identified nodes → Forall identified edges →
  ∃ cy1,
    merge_elements (Some (JArr nodes)) (Some (JArr edges)) cy = (cy1, Normal ()) ∧
    merge_elements (Some (JArr nodes)) (Some (JArr edges)) cy1
      = (Cy.run_layout cy1, Normal ()).
Proof.
  intros Hn He. unfold merge_elements, mbind, eff_bind, update. simpl.
  destruct (for_each_covers nodes cy Hn) as (cy_n & Hrun_n & Hall_n).
  destruct (for_each_covers edges cy_n He) as (cy_e & Hrun_e & Hall_e).
  pose proof (for_each_grows edges cy_n) as Hsub. rewrite Hrun_e in Hsub.
  rewrite Hrun_n, Hrun_e. eexists. split; [done|].
  rewrite (for_each_absorb nodes (Cy.run_layout cy_e)).
  - by rewrite (for_each_absorb edges (Cy.run_layout cy_e)).
  - by apply (all_present_mono _ cy_n).
Qed.

Lemma node_element_id (n : node) : Cy.id (node_element n) = Some (node_id n).
Proof. reflexivity. Qed.

Lemma edge_element_id (e : edge) : Cy.id (edge_element e) = Some (edge_id e).
Proof. reflexivity. Qed.

Lemma graph_message_batch (type : jsstring) (nodes : list node) (edges : list edge) :
  graph_batch (graph_message type nodes edges)
    (node_element <$> nodes) (edge_element <$> edges)
  ∧ Forall identified (node_element <$> nodes)
  ∧ Forall identified (edge_element <$> edges).
Proof.
  split; [|split].
  - eexists. repeat split; reflexivity.
  - apply Forall_fmap, Forall_true. intros n. by exists (node_id n).
  - apply Forall_fmap, Forall_true. intros e. by exists (edge_id e).
Qed.

Lemma on_parsed_twice (message : json) (nodes edges : list json)
    (cyRef : option Cy.core) :
  graph_batch message nodes edges →
  Forall identified nodes → Forall identified edges →
  shown (fst (on_parsed message (fst (on_parsed message cyRef))))
  = shown (fst (on_parsed message cyRef)).
Proof.
  intros (data & Hdata & Hnodes & Hedges) Hn He. unfold on_parsed.
  destruct (get (Some message) (lit "type")) as [type|]; [|done].
  rewrite Hdata, Hnodes, Hedges.
  destruct (_ || _).
  - destruct cyRef as [cy|]; [|done].
    destruct (merge_elements_twice nodes edges cy Hn He) as (cy1 & H1 & H2).
    rewrite H1. simpl. by rewrite H2.
  - destruct (strict_eq type (lit "clear")); [|done]. by destruct cyRef.
Qed.

(** ** The page *)

Lemma run_snoc (es : list event) (e : event) (st : state) :
  run (es ++ [e]) st = step (run es st) e.
Proof. unfold run. by rewrite fold_left_app. Qed.

Lemma set_cyRef_same (st : state) : set_cyRef (cyRef st) st = st.
Proof. by destruct st. Qed.

Lemma step_NoDup (st : state) (e : event) :
  NoDup (shown_ids (cyRef st)) → NoDup (shown_ids (cyRef (step st e))).
Proof.
  intros Hnd. destruct e; simpl; try done.
  - unfold mount. destruct (cyRef st) eqn:Hc; simpl; [by rewrite Hc|].
    destruct container; simpl; [apply NoDup_nil_2 | by rewrite Hc].
  - unfold unmount. by destruct (socket_open st).
  - unfold handleSubmit. by destruct (_ && _).
  - unfold handleClear. by destruct (socket_open st).
  - by destruct (examples !! i).
  - unfold set_ready. by destruct (wsRef st).
  - unfold set_ready. by destruct (wsRef st).
  - by apply onmessage_NoDup.
Qed.

Lemma run_NoDup (es : list event) :
  NoDup (shown_ids (cyRef (run es initial_state))).
Proof.
  induction es as [|e es IH] using rev_ind; [apply NoDup_nil_2|].
  rewrite run_snoc. by apply step_NoDup.
Qed.

(** What one event hands to [send]. *)
Lemma step_sent (st : state) (e : event) :
  sent (step st e) = sent st
  ∨ (e = Submit ∧
     sent (step st e) = sent st ++ [JSON_stringify (text_message (inputText st))])
  ∨ (e = ClickClear ∧
     sent (step st e) = sent st ++ [JSON_stringify clear_message]).
Proof.
  destruct e; simpl; try by left.
  - left. unfold mount. destruct (cyRef st); [done|]. by destruct container.
  - left. unfold unmount. by destruct (socket_open st).
  - unfold handleSubmit. destruct (_ && _); [right; left | left]; done.
  - unfold handleClear. destruct (socket_open st); [right; right | left]; done.
  - left. by destruct (examples !! i).
  - left. unfold set_ready. by destruct (wsRef st).
  - left. unfold set_ready. by destruct (wsRef st).
Qed.

Lemma for_each_elements (items : list json) (cy : Cy.core) (ele : json) :
  ele ∈ Cy.elements (fst (for_each add_if_absent items cy)) →
  ele ∈ Cy.elements cy ∨ ele ∈ items.
Proof.
  revert cy. induction items as [|x items IH]; intros cy; [by left|].
  simpl. unfold mbind, eff_bind.
  pose proof (add_if_absent_cases x cy) as Hx.
  destruct (add_if_absent x cy) as [cy' [[]|e]]; simpl in *.
  - intros [Hin|Hin]%IH; [|right; by right].
    destruct Hx as [->|[-> _]]; [by left|].
    simpl in Hin. apply elem_of_app in Hin as [Hin|Hin]; [by left|].
    apply list_elem_of_singleton in Hin as ->. right. by left.
  - destruct Hx as [->|[-> _]]; [by left|].
    simpl. intros [Hin|Hin]%elem_of_app; [by left|].
    apply list_elem_of_singleton in Hin as ->. right. by left.
Qed.

(** What merging a batch in the wire format does to the core. *)
Lemma merge_wire (ns : list node) (es : list edge) (cy : Cy.core) :
  ∃ cy',
    merge_elements (Some (JArr (node_element <$> ns)))
                   (Some (JArr (edge_element <$> es))) cy = (cy', Normal ())
    ∧ (∀ ele, ele ∈ Cy.elements cy' →
         ele ∈ Cy.elements cy ∨ ele ∈ node_element <$> ns
         ∨ ele ∈ edge_element <$> es)
    ∧ omap Cy.id (Cy.elements cy) ⊆ omap Cy.id (Cy.elements cy')
    ∧ (∀ n, n ∈ ns → node_id n ∈ omap Cy.id (Cy.elements cy')).
Proof.
  destruct (graph_message_batch [] ns es) as (_ & Hn & He).
  unfold merge_elements, mbind, eff_bind, update. simpl.
  destruct (for_each_covers _ cy Hn) as (cy_n & Hrun_n & Hall_n).
  destruct (for_each_covers _ cy_n He) as (cy_e & Hrun_e & Hall_e).
  pose proof (for_each_grows (node_element <$> ns) cy) as Hsub_n.
  pose proof (for_each_grows (edge_element <$> es) cy_n) as Hsub_e.
  pose proof (for_each_elements (node_element <$> ns) cy) as Hel_n.
  pose proof (for_each_elements (edge_element <$> es) cy_n) as Hel_e.
  rewrite Hrun_n in *. rewrite Hrun_e in *. simpl in *.
  eexists. split; [done|]. simpl. repeat split.
  - intros ele [Hin|Hin]%Hel_e; [|by right; right].
    apply Hel_n in Hin as [Hin|Hin]; [by left | right; by left].
  - by etrans.
  - intros n Hin. apply Hsub_e.
    unfold all_present in Hall_n. rewrite Forall_fmap, Forall_forall in Hall_n.
    destruct (Hall_n n Hin) as (s & Hs & Hpresent). simpl in Hs.
    by injection Hs as <-.
Qed.

Lemma on_parsed_graph_message (type : jsstring) (ns : list node) (es : list edge)
    (cy : Cy.core) :
  type = lit "initial" ∨ type = lit "update" →
  on_parsed (graph_message type ns es) (Some cy)
  = let '(cy', c) :=
      merge_elements (Some (JArr (node_element <$> ns)))
                     (Some (JArr (edge_element <$> es))) cy in
    (Some cy', c).
Proof. intros [-> | ->]; reflexivity. Qed.

Lemma on_parsed_None (message : json) :
  fst (on_parsed message None) = None.
Proof.
  unfold on_parsed.
  destruct (get (Some message) (lit "type")) as [type|]; [|done].
  destruct (_ || _).
  - destruct (get (Some message) (lit "data")) as [data|]; [|done].
    by destruct (get data (lit "nodes")), (get data (lit "edges")).
  - by destruct (strict_eq type (lit "clear")).
Qed.

Lemma node_element_ends (n : node) (k : jsstring) :
  k = lit "source" ∨ k = lit "target" → data_string k (node_element n) = None.
Proof. intros [-> | ->]; reflexivity. Qed.

Lemma edge_element_source (e : edge) :
  data_string (lit "source") (edge_element e) = Some (edge_source e).
Proof. reflexivity. Qed.

Lemma edge_element_target (e : edge) :
  data_string (lit "target") (edge_element e) = Some (edge_target e).
Proof. reflexivity. Qed.

Lemma endpoints_present_nil : endpoints_present [].
Proof. intros ele s Hin. by apply elem_of_nil in Hin. Qed.

Lemma endpoints_present_grow (els els' : list json) (ns : list node) (es : list edge) :
  endpoints_present els →
  (∀ ele, ele ∈ els' →
     ele ∈ els ∨ ele ∈ node_element <$> ns ∨ ele ∈ edge_element <$> es) →
  omap Cy.id els ⊆ omap Cy.id els' →
  (∀ e, e ∈ es →
     edge_source e ∈ omap Cy.id els' ∧ edge_target e ∈ omap Cy.id els') →
  endpoints_present els'.
Proof.
  intros Hold Hels Hsub Hes ele s Hin Hends.
  destruct (Hels ele Hin) as [Hin'|[Hin'|Hin']].
  - apply Hsub. by apply (Hold ele).
  - apply list_elem_of_fmap in Hin' as (n & -> & _).
    rewrite !node_element_ends in Hends by auto. by destruct Hends.
  - apply list_elem_of_fmap in Hin' as (e & -> & He).
    rewrite edge_element_source, edge_element_target in Hends.
    destruct (Hes e He) as [Hs Ht]. by destruct Hends as [[= <-]|[= <-]].
Qed.

(** A page that has a core, and how one batch in the wire format changes
    what it shows. *)
Lemma step_wire (page : state) (type : jsstring) (ns : list node) (es : list edge) :
  is_Some (cyRef page) →
  type = lit "initial" ∨ type = lit "update" →
  ∃ page',
    page' = step page (WsMessage (JSON_stringify (graph_message type ns es)))
    ∧ is_Some (cyRef page')
    ∧ (∀ ele, ele ∈ shown (cyRef page') →
         ele ∈ shown (cyRef page) ∨ ele ∈ node_element <$> ns
         ∨ ele ∈ edge_element <$> es)
    ∧ shown_ids (cyRef page) ⊆ shown_ids (cyRef page')
    ∧ (∀ n, n ∈ ns → node_id n ∈ shown_ids (cyRef page')).
Proof.
  intros [cy Hcy] Htype. eexists. split; [reflexivity|].
  cbn [step]. unfold onmessage.
  rewrite JSON_parse_stringify by apply graph_message_plain.
  rewrite Hcy, on_parsed_graph_message by done.
  destruct (merge_wire ns es cy) as (cy' & -> & Hels & Hsub & Hns).
  unfold shown_ids. simpl. eauto.
Qed.

Lemma step_clear_frame (page : state) :
  shown (cyRef (step page (WsMessage (JSON_stringify clear_message)))) = []
  ∧ (is_Some (cyRef page) →
     is_Some (cyRef (step page (WsMessage (JSON_stringify clear_message))))).
Proof.
  cbn [step]. unfold onmessage.
  change (JSON_parse (JSON_stringify clear_message)) with (Some clear_message).
  destruct (cyRef page); simpl; split; eauto.
Qed.

Lemma step_message_None (page : state) (frame : jsstring) :
  cyRef page = None → cyRef (step page (WsMessage frame)) = None.
Proof.
  intros Hnone. simpl. unfold onmessage. rewrite Hnone.
  destruct (JSON_parse frame); [apply on_parsed_None | done].
Qed.

(** * Properties of the backend model *)

Module ServerFacts.
Import Server.

Lemma elem_of_new_entities (k : Known) (es : list Entity) (e : Entity) :
  e ∈ new_entities k es ↔ e ∈ es ∧ (entity_id e ∉ known_nodes k).
Proof. unfold new_entities. rewrite list_elem_of_filter. tauto. Qed.

Lemma elem_of_new_relations (k : Known) (es : list Entity) (rs : list Relation)
    (r : Relation) :
  r ∈ new_relations k es rs ↔
    r ∈ rs ∧ (relation_id r ∉ known_edges k) ∧
    (source_id r ∈ known_nodes k ∪ entity_ids (new_entities k es)) ∧
    (target_id r ∈ known_nodes k ∪ entity_ids (new_entities k es)).
Proof. unfold new_relations. rewrite list_elem_of_filter. tauto. Qed.

Lemma dom_index {A} (key : A → list N) (l : list A) :
  dom (list_to_map ((λ x, (key x, x)) <$> l) : gmap (list N) A)
  = list_to_set (key <$> l).
Proof.
  rewrite dom_list_to_map_L. f_equal. rewrite <- list_fmap_compose.
  by apply list_fmap_ext.
Qed.

Lemma lookup_index {A} (key : A → list N) (l : list A) (i : list N) (x : A) :
  (list_to_map ((λ x, (key x, x)) <$> l) : gmap (list N) A) !! i = Some x →
  x ∈ l ∧ key x = i.
Proof.
  intros H. apply elem_of_list_to_map_2 in H.
  apply list_elem_of_fmap in H as (y & [= -> ->] & Hy). done.
Qed.

(** The known ids the merge returns are the ids of the extended graph. *)
Lemma known_extend (g : Graph) (es : list Entity) (rs : list Relation) :
  known (extend g (new_entities (known g) es) (new_relations (known g) es rs))
  = snd (merge (known g) es rs).
Proof.
  unfold known, extend, merge. simpl. f_equal.
  - by rewrite dom_union_L, dom_index.
  - by rewrite dom_union_L, dom_index.
Qed.

Lemma extend_well_formed (g : Graph) (es : list Entity) (rs : list Relation) :
  well_formed g →
  well_formed (extend g (new_entities (known g) es)
                        (new_relations (known g) es rs)).
Proof.
  intros Hwf i r. unfold extend. simpl. rewrite dom_union_L, dom_index.
  intros [Hold|[_ Hnew]]%lookup_union_Some_raw.
  - destruct (Hwf i r Hold). set_solver.
  - apply lookup_index in Hnew as [Hin _].
    apply elem_of_new_relations in Hin as (_ & _ & Hs & Ht). done.
Qed.

Lemma empty_well_formed : well_formed empty_graph.
Proof. intros i r. simpl. by rewrite lookup_empty. Qed.

Section Broadcaster.
Variable extract : list N → option (list Entity * list Relation).
Variable on_malformed : malformed_policy.

Lemma handle_text_well_formed (s : list N) (closed : list nat) (st : broadcaster) :
  well_formed (graph st) →
  well_formed (graph (fst (handle_text extract s closed st))).
Proof.
  intros Hwf. unfold handle_text, merge.
  destruct (decide (trim s = [])); [done|].
  destruct (extract s) as [[es rs]|]; [|done].
  pose proof (extend_well_formed (graph st) es rs Hwf) as Hext.
  destruct (new_entities _ es), (new_relations _ es rs); done.
Qed.

Lemma handle_well_formed (st : broadcaster) (i : input) :
  well_formed (graph st) →
  well_formed (graph (fst (handle extract on_malformed st i))).
Proof.
  intros Hwf. destruct i as [c|c frame closed|c]; simpl; try done.
  destruct (decode frame) as [[s|]|].
  - by apply handle_text_well_formed.
  - apply empty_well_formed.
  - by destruct on_malformed.
Qed.

Lemma filter_none {A} (P : A → Prop) `{∀ x, Decision (P x)} (l : list A) :
  (∀ x, x ∈ l → ¬ P x) → filter P l = [].
Proof.
  induction l as [|x l IH]; intros Hno; [done|].
  rewrite filter_cons, decide_False by (apply Hno; left).
  apply IH. intros y Hy. apply Hno. by right.
Qed.

(** Once a batch is merged, merging it again finds nothing new. *)
Lemma merge_again (g : Graph) (es : list Entity) (rs : list Relation) :
  let g' := extend g (new_entities (known g) es) (new_relations (known g) es rs) in
  new_entities (known g') es = [] ∧ new_relations (known g') es rs = [].
Proof.
  intros g'.
  assert (Hnodes : known_nodes (known g')
                   = known_nodes (known g) ∪ entity_ids (new_entities (known g) es)).
  { unfold g', known, extend. cbn [known_nodes entities].
    by rewrite dom_union_L, dom_index. }
  assert (Hedges : known_edges (known g')
                   = known_edges (known g)
                     ∪ relation_ids (new_relations (known g) es rs)).
  { unfold g', known, extend. cbn [known_edges relations].
    by rewrite dom_union_L, dom_index. }
  assert (Hne : new_entities (known g') es = []).
  { apply filter_none. intros e He Hfresh. apply Hfresh.
    rewrite Hnodes.
    destruct (decide (entity_id e ∈ known_nodes (known g))) as [|Hnew];
      [by apply elem_of_union_l|].
    apply elem_of_union_r, elem_of_list_to_set, list_elem_of_fmap.
    exists e. split; [done|]. by apply elem_of_new_entities. }
  split; [done|]. unfold new_relations at 1. rewrite Hne.
  apply filter_none. intros r Hr (Hfresh & Hs & Ht).
  apply Hfresh. rewrite Hedges. rewrite Hnodes in Hs, Ht.
  assert (Hnone : ∀ i, i ∉ entity_ids []).
  { intros i Hi. apply elem_of_list_to_set in Hi. by apply elem_of_nil in Hi. }
  apply elem_of_union in Hs as [Hs|Hs]; [|by destruct (Hnone _ Hs)].
  apply elem_of_union in Ht as [Ht|Ht]; [|by destruct (Hnone _ Ht)].
  destruct (decide (relation_id r ∈ known_edges (known g))) as [|Hnew];
    [by apply elem_of_union_l|].
  apply elem_of_union_r, elem_of_list_to_set, list_elem_of_fmap.
  exists r. split; [done|]. by apply elem_of_new_relations.
Qed.

(** Submitting a sentence a second time, right after the first, changes
    nothing and sends nothing. *)
Lemma resubmission_is_silent (s : list N) (closed closed' : list nat)
    (st : broadcaster) :
  handle_text extract s closed' (fst (handle_text extract s closed st))
  = (fst (handle_text extract s closed st), []).
Proof.
  unfold handle_text, merge. destruct (decide (trim s = [])) as [Hb|Hb];
    [done|].
  destruct (extract s) as [[es rs]|]; cbn [fst]; [|done].
  destruct (merge_again (graph st) es rs) as [Hne' Hnr'].
  destruct (new_entities (known (graph st)) es) as [|e ne] eqn:Hne;
    [destruct (new_relations (known (graph st)) es rs) as [|r nr] eqn:Hnr|];
    cbn [fst]; rewrite ?Hne, ?Hnr in Hne', Hnr'.
  - by rewrite Hne, Hnr.
  - unfold broadcast. cbn [fst graph]. by rewrite Hne', Hnr'.
  - unfold broadcast. cbn [fst graph]. by rewrite Hne', Hnr'.
Qed.

Lemma after_snoc (st : broadcaster) (inputs : list input) (i : input) :
  after extract on_malformed st (inputs ++ [i])
  = fst (handle extract on_malformed (after extract on_malformed st inputs) i).
Proof. unfold after. by rewrite fold_left_app. Qed.

Lemma after_well_formed (inputs : list input) :
  well_formed (graph (after extract on_malformed start inputs)).
Proof.
  induction inputs as [|i inputs IH] using rev_ind; [apply empty_well_formed|].
  rewrite after_snoc. by apply handle_well_formed.
Qed.

End Broadcaster.

End ServerFacts.

(** * Properties of server and page together *)

Module SystemFacts.
Import Server System.

Lemma extend_keyed (g : Graph) (ne : list Entity) (nr : list Relation) :
  keyed g → keyed (extend g ne nr).
Proof.
  intros Hk i e. simpl. intros [H|[_ H]]%lookup_union_Some_raw; [by apply Hk|].
  by apply ServerFacts.lookup_index in H as [_ ?].
Qed.

Lemma empty_keyed : keyed empty_graph.
Proof. intros j e. unfold empty_graph. cbn [entities]. by rewrite lookup_empty. Qed.

Lemma deliver_inv (P : state → Prop) (c : nat) (payload : list N)
    (conns : list nat) (page : state) :
  (∀ p, P p → P (step p (WsMessage payload))) →
  P page → P (deliver c page ((λ c', (c', payload)) <$> conns)).
Proof.
  intros Hstep. revert page. induction conns as [|c1 conns IH]; intros page HP;
    [done|].
  simpl. apply IH. destruct (decide (c1 = c)); [by apply Hstep | done].
Qed.

Lemma deliver_absent (c : nat) (payload : list N) (conns : list nat) (page : state) :
  c ∉ conns → deliver c page ((λ c', (c', payload)) <$> conns) = page.
Proof.
  revert page. induction conns as [|c1 conns IH]; intros page Hc; [done|].
  apply not_elem_of_cons in Hc as [Hne Hc]. simpl.
  rewrite decide_False by done. by apply IH.
Qed.

Lemma deliver_present (P R : state → Prop) (c : nat) (payload : list N)
    (conns : list nat) (page : state) :
  (∀ p, P p → R (step p (WsMessage payload))) →
  (∀ p, R p → P p) →
  c ∈ conns → P page →
  R (deliver c page ((λ c', (c', payload)) <$> conns)).
Proof.
  intros Hstep HRP. revert page.
  induction conns as [|c1 conns IH]; intros page Hc HP.
  { by apply elem_of_nil in Hc. }
  simpl. destruct (decide (c1 = c)) as [->|Hne].
  - apply (deliver_inv R); [intros p Hp; apply Hstep, HRP, Hp|].
    by apply Hstep.
  - apply IH; [|done]. apply elem_of_cons in Hc as [->|Hc]; done.
Qed.

Lemma follows_update (g : Graph) (es : list Entity) (rs : list Relation) (p : state) :
  follows g p →
  follows (extend g (new_entities (known g) es) (new_relations (known g) es rs))
    (step p (WsMessage (JSON_stringify
       (update_message (new_entities (known g) es)
                       (new_relations (known g) es rs))))).
Proof.
  intros (Hp1 & Hp2 & Hp3).
  destruct (step_wire p (lit "update")
              (node_of <$> new_entities (known g) es)
              (edge_of <$> new_relations (known g) es rs) Hp1)
    as (p' & Hp' & Hq1 & Hq2 & Hq3 & Hq4); [by right|].
  unfold update_message. rewrite <- Hp'. clear Hp'.
  assert (Hne : ∀ e, e ∈ new_entities (known g) es →
                     entity_id e ∈ shown_ids (cyRef p')).
  { intros e He. apply (Hq4 (node_of e)). apply list_elem_of_fmap. eauto. }
  assert (Hcover : ∀ i, i ∈ dom (entities g) ∪ entity_ids (new_entities (known g) es) →
                        i ∈ shown_ids (cyRef p')).
  { intros i [Hi|Hi]%elem_of_union; [by apply Hq3, Hp3|].
    apply elem_of_list_to_set, list_elem_of_fmap in Hi as (e & -> & He).
    by apply Hne. }
  split; [done|]. split.
  - apply (endpoints_present_grow (shown (cyRef p)) (shown (cyRef p'))
             (node_of <$> new_entities (known g) es)
             (edge_of <$> new_relations (known g) es rs) Hp2 Hq2 Hq3).
    intros ed (r & -> & Hr)%list_elem_of_fmap.
    apply ServerFacts.elem_of_new_relations in Hr as (_ & _ & Hs & Ht).
    split; [apply (Hcover _ Hs) | apply (Hcover _ Ht)].
  - intros i. unfold extend. cbn [entities].
    rewrite dom_union_L, ServerFacts.dom_index. apply Hcover.
Qed.

Lemma follows_update_again (g : Graph) (es : list Entity) (rs : list Relation)
    (p : state) :
  follows (extend g (new_entities (known g) es) (new_relations (known g) es rs)) p →
  follows (extend g (new_entities (known g) es) (new_relations (known g) es rs))
    (step p (WsMessage (JSON_stringify
       (update_message (new_entities (known g) es)
                       (new_relations (known g) es rs))))).
Proof.
  intros (Hp1 & Hp2 & Hp3).
  destruct (step_wire p (lit "update")
              (node_of <$> new_entities (known g) es)
              (edge_of <$> new_relations (known g) es rs) Hp1)
    as (p' & Hp' & Hq1 & Hq2 & Hq3 & Hq4); [by right|].
  unfold update_message. rewrite <- Hp'. clear Hp'.
  split; [done|]. split; [|intros i Hi; by apply Hq3, Hp3].
  apply (endpoints_present_grow (shown (cyRef p)) (shown (cyRef p'))
           (node_of <$> new_entities (known g) es)
           (edge_of <$> new_relations (known g) es rs) Hp2 Hq2 Hq3).
  intros ed (r & -> & Hr)%list_elem_of_fmap.
  apply ServerFacts.elem_of_new_relations in Hr as (_ & _ & Hs & Ht).
  assert (Hdom : ∀ i, i ∈ known_nodes (known g)
                        ∪ entity_ids (new_entities (known g) es) →
                      i ∈ shown_ids (cyRef p')).
  { intros i Hi. apply Hq3, Hp3. unfold extend. cbn [entities].
    by rewrite dom_union_L, ServerFacts.dom_index. }
  split; [apply (Hdom _ Hs) | apply (Hdom _ Ht)].
Qed.

Lemma follows_initial (g : Graph) (p : state) :
  well_formed g → keyed g →
  is_Some (cyRef p) → endpoints_present (shown (cyRef p)) →
  follows g (step p (WsMessage (JSON_stringify (initial_message g)))).
Proof.
  intros Hwf Hk Hp1 Hp2.
  destruct (step_wire p (lit "initial")
              (node_of <$> (map_to_list (entities g)).*2)
              (edge_of <$> (map_to_list (relations g)).*2) Hp1)
    as (p' & Hp' & Hq1 & Hq2 & Hq3 & Hq4); [by left|].
  unfold initial_message. rewrite <- Hp'. clear Hp'.
  assert (Hcover : ∀ i, i ∈ dom (entities g) → i ∈ shown_ids (cyRef p')).
  { intros i [e He]%elem_of_dom. rewrite <- (Hk i e He).
    apply (Hq4 (node_of e)). apply list_elem_of_fmap. exists e. split; [done|].
    apply list_elem_of_fmap. exists (i, e). split; [done|].
    by apply elem_of_map_to_list. }
  split; [done|]. split; [|done].
  apply (endpoints_present_grow (shown (cyRef p)) (shown (cyRef p'))
           (node_of <$> (map_to_list (entities g)).*2)
           (edge_of <$> (map_to_list (relations g)).*2) Hp2 Hq2 Hq3).
  intros ed (r & -> & Hr)%list_elem_of_fmap.
  apply list_elem_of_fmap in Hr as ([j r'] & -> & Hr).
  apply elem_of_map_to_list in Hr. destruct (Hwf j r' Hr) as [Hs Ht].
  split; [apply (Hcover _ Hs) | apply (Hcover _ Ht)].
Qed.

Lemma follows_clear (p : state) :
  is_Some (cyRef p) →
  follows empty_graph (step p (WsMessage (JSON_stringify clear_message))).
Proof.
  intros Hp. destruct (step_clear_frame p) as [Hshown Hsome].
  split; [by apply Hsome|]. split.
  - rewrite Hshown. apply endpoints_present_nil.
  - intros i. unfold empty_graph. cbn [entities]. by rewrite dom_empty_L.
Qed.

Lemma follows_core (g : Graph) (p : state) : follows g p → is_Some (cyRef p).
Proof. by intros (? & _). Qed.

Lemma follows_ends (g : Graph) (p : state) :
  follows g p → endpoints_present (shown (cyRef p)).
Proof. by intros (_ & ? & _). Qed.

Section Run.
Variable extract : list N → option (list Entity * list Relation).
Variable on_malformed : malformed_policy.
Variable c : nat.

(** What a [text] message does: nothing, or a broadcast of the delta. *)
Lemma handle_text_cases (s : list N) (closed : list nat) (st : broadcaster) :
  handle_text extract s closed st = (st, [])
  ∨ ∃ es rs,
      handle_text extract s closed st
      = ({| graph := extend (graph st) (new_entities (known (graph st)) es)
                       (new_relations (known (graph st)) es rs);
            live := filter (λ c', c' ∉ closed) (live st) |},
         (λ c', (c', JSON_stringify
                       (update_message (new_entities (known (graph st)) es)
                          (new_relations (known (graph st)) es rs))))
           <$> filter (λ c', c' ∉ closed) (live st)).
Proof.
  unfold handle_text, merge. destruct (decide (trim s = [])); [by left|].
  destruct (extract s) as [[es rs]|]; [|by left].
  destruct (new_entities (known (graph st)) es) as [|e ne] eqn:Hne.
  - destruct (new_relations (known (graph st)) es rs) as [|r nr] eqn:Hnr;
      [by left|].
    right. exists es, rs. by rewrite Hne, Hnr.
  - right. exists es, rs. by rewrite Hne.
Qed.

Lemma broadcast_synced (st : broadcaster) (page : state) (g' : Graph)
    (payload : list N) (closed : list nat) :
  synced c (st, page) →
  well_formed g' → keyed g' →
  (∀ p, follows (graph st) p → follows g' (step p (WsMessage payload))) →
  (∀ p, follows g' p → follows g' (step p (WsMessage payload))) →
  synced c ({| graph := g'; live := filter (λ c', c' ∉ closed) (live st) |},
            deliver c page ((λ c', (c', payload))
                              <$> filter (λ c', c' ∉ closed) (live st))).
Proof.
  intros (Hwf & Hk & Hcore & Hends & Hfol) Hwf' Hk' Hfirst Hnext.
  cbn [fst snd graph live] in *.
  destruct (decide (c ∈ filter (λ c', c' ∉ closed) (live st))) as [Hin|Hout].
  - assert (Hlive : c ∈ live st) by (by apply list_elem_of_filter in Hin as [_ ?]).
    assert (Hfin : follows g'
              (deliver c page ((λ c', (c', payload))
                                 <$> filter (λ c', c' ∉ closed) (live st)))).
    { apply (deliver_present (λ p, follows (graph st) p ∨ follows g' p)
               (follows g')); [|by right|done|left; by apply Hfol].
      intros p [Hp|Hp]; [by apply Hfirst | by apply Hnext]. }
    split; [done|]. split; [done|].
    split; [by apply (follows_core g')|]. split; [by apply (follows_ends g')|done].
  - rewrite deliver_absent by done.
    split; [done|]. split; [done|]. cbn [fst snd graph live].
    split; [done|]. split; [done|]. intros Hc. by destruct Hout.
Qed.

Lemma sys_step_synced (sys : broadcaster * state) (i : input) :
  synced c sys → synced c (sys_step extract on_malformed c sys i).
Proof.
  destruct sys as [st page]. intros Hsync. unfold sys_step. cbn [fst snd].
  pose proof Hsync as (Hwf & Hk & Hcore & Hends & Hfol).
  cbn [fst snd] in Hwf, Hk, Hcore, Hends, Hfol.
  destruct i as [c'|c' frame closed|c'].
  - cbn [handle]. unfold deliver. cbn [fold_left fst snd].
    destruct (decide (c' = c)) as [->|Hne].
    + split; [done|]. split; [done|]. cbn [fst snd graph live].
      pose proof (follows_initial (graph st) page Hwf Hk Hcore Hends) as Hf.
      split; [by apply (follows_core (graph st))|].
      split; [by apply (follows_ends (graph st))|done].
    + split; [done|]. split; [done|]. cbn [fst snd graph live].
      split; [done|]. split; [done|].
      intros [->|Hin]%elem_of_cons; [done|].
      apply list_elem_of_filter in Hin as [_ Hin]. by apply Hfol.
  - cbn [handle]. destruct (decode frame) as [[s|]|].
    + destruct (handle_text_cases s closed st) as [->|(es & rs & ->)]; [done|].
      apply broadcast_synced; [done| | | |].
      * by apply ServerFacts.extend_well_formed.
      * by apply extend_keyed.
      * apply follows_update.
      * apply follows_update_again.
    + unfold handle_clear, broadcast.
      apply broadcast_synced; [done| | | |].
      * apply ServerFacts.empty_well_formed.
      * apply empty_keyed.
      * intros p Hp. apply follows_clear. by apply (follows_core (graph st)).
      * intros p Hp. apply follows_clear. by apply (follows_core empty_graph).
    + destruct on_malformed; [done|].
      split; [done|]. split; [done|]. cbn [fst snd graph live drop deliver fold_left].
      split; [done|]. split; [done|].
      intros Hin. apply list_elem_of_filter in Hin as [_ Hin]. by apply Hfol.
  - cbn [handle deliver fold_left fst snd].
    split; [done|]. split; [done|]. cbn [fst snd graph live drop].
    split; [done|]. split; [done|].
    intros Hin. apply list_elem_of_filter in Hin as [_ Hin]. by apply Hfol.
Qed.

Lemma sys_run_snoc (page : state) (inputs : list input) (i : input) :
  sys_run extract on_malformed c page (inputs ++ [i])
  = sys_step extract on_malformed c (sys_run extract on_malformed c page inputs) i.
Proof. unfold sys_run. by rewrite fold_left_app. Qed.

Lemma sys_run_synced (page : state) (inputs : list input) :
  is_Some (cyRef page) → endpoints_present (shown (cyRef page)) →
  synced c (sys_run extract on_malformed c page inputs).
Proof.
  intros Hcore Hends.
  induction inputs as [|i inputs IH] using rev_ind.
  - unfold sys_run. cbn [fold_left].
    split; [apply ServerFacts.empty_well_formed|].
    split; [apply empty_keyed|].
    cbn [fst snd]. split; [done|]. split; [done|].
    unfold start. cbn [live]. by intros ?%elem_of_nil.
  - rewrite sys_run_snoc. by apply sys_step_synced.
Qed.

End Run.
End SystemFacts.

(** A page without a core stays without one, whatever frames arrive. *)
Lemma deliver_no_core (c : nat) (page : state) (out : list (nat * list N)) :
  cyRef page = None → cyRef (System.deliver c page out) = None.
Proof.
  revert page. induction out as [|d out IH]; intros page Hnone; [done|].
  simpl. apply IH. destruct (decide (d.1 = c)); [|done].
  by apply step_message_None.
Qed.

Lemma sys_run_no_core
    (extract : list N → option (list Server.Entity * list Server.Relation))
    (on_malformed : Server.malformed_policy) (c : nat)
    (page : state) (inputs : list Server.input) :
  cyRef page = None →
  cyRef (System.sys_run extract on_malformed c page inputs).2 = None.
Proof.
  intros Hnone. induction inputs as [|i inputs IH] using rev_ind; [done|].
  rewrite SystemFacts.sys_run_snoc. unfold System.sys_step.
  destruct (Server.handle extract on_malformed _ i) as [st out]. cbn [snd].
  by apply deliver_no_core.
Qed.

(** The page of a connection never shows a dangling edge. *)
Lemma sys_run_endpoints
    (extract : list N → option (list Server.Entity * list Server.Relation))
    (on_malformed : Server.malformed_policy) (c : nat)
    (page : state) (inputs : list Server.input) :
  endpoints_present (shown (cyRef page)) →
  endpoints_present
    (shown (cyRef (System.sys_run extract on_malformed c page inputs).2)).
Proof.
  intros Hends. destruct (cyRef page) as [cy|] eqn:Hcore.
  - assert (Hsome : is_Some (cyRef page)) by (rewrite Hcore; eauto).
    rewrite <- Hcore in Hends.
    by destruct (SystemFacts.sys_run_synced extract on_malformed c page inputs
                   Hsome Hends) as (_ & _ & _ & ? & _).
  - rewrite (sys_run_no_core extract on_malformed c page inputs Hcore).
    apply endpoints_present_nil.
Qed.

(** * The properties of the protocol *)

(** C1. Merging is idempotent on the client. Whatever the state of the
    page, when a frame carries a batch of nodes and edges that all have an
    id, handling the frame twice shows the same elements as handling it
    once; this holds in particular for the serialised [initial] or [update]
    message of any batch in the wire format. And whatever happened to the
    page since it was loaded, no two elements on display have the same
    id: at most one node per entity id, at most one edge per edge id. *)
Theorem merge_idempotent :
  (∀ (st : state) (frame : jsstring) (message : json) (nodes edges : list json),
     JSON_parse frame = Some message →
     graph_batch message nodes edges →
     Forall identified nodes → Forall identified edges →
     shown (cyRef (run [WsMessage frame; WsMessage frame] st))
     = shown (cyRef (run [WsMessage frame] st)))
  ∧ (∀ (st : state) (type : jsstring) (nodes : list node) (edges : list edge),
       shown (cyRef (run [WsMessage (JSON_stringify (graph_message type nodes edges));
                          WsMessage (JSON_stringify (graph_message type nodes edges))]
                       st))
       = shown (cyRef (run [WsMessage (JSON_stringify (graph_message type nodes edges))]
                         st)))
  ∧ (∀ events : list event,
       NoDup (shown_ids (cyRef (run events initial_state)))).
Proof.
  split; [|split; [|apply run_NoDup]].
  - intros st frame message nodes edges Hparse Hbatch Hn He.
    cbn [run fold_left step cyRef set_cyRef]. unfold onmessage. rewrite Hparse.
    by apply (on_parsed_twice _ nodes edges).
  - intros st type nodes edges.
    cbn [run fold_left step cyRef set_cyRef]. unfold onmessage.
    rewrite JSON_parse_stringify by apply graph_message_plain.
    destruct (graph_message_batch type nodes edges) as (Hbatch & Hn & He).
    by apply (on_parsed_twice _ _ _ _ Hbatch).
Qed.

Lemma merge_idempotent_witness :
  JSON_parse john_update = Some (graph_message (lit "update") john_nodes john_edges)
  ∧ shown (cyRef (run [WsMessage john_update; WsMessage john_update] john_page))
    = shown (cyRef (run [WsMessage john_update] john_page)).
Proof.
  split; [vm_compute; reflexivity|].
  apply (proj1 merge_idempotent john_page john_update
           (graph_message (lit "update") john_nodes john_edges)
           (node_element <$> john_nodes) (edge_element <$> john_edges)).
  - vm_compute. reflexivity.
  - eexists. repeat split; reflexivity.
  - repeat constructor; eexists; reflexivity.
  - repeat constructor; eexists; reflexivity.
Defined.

(** C2. The dedup policy of the merge function: of an extracted batch, an
    entity is in the delta iff its id is not already known, and a relation
    is in the delta iff its id is not known and both of its endpoints are
    among the previously known and the newly added entity ids; the
    updated known ids are the old ones and those of the delta. *)
Theorem merge_dedup_policy
    (k : Server.Known) (es : list Server.Entity) (rs : list Server.Relation) :
  let '(ne, nr, k') := Server.merge k es rs in
  (∀ e, e ∈ ne ↔ e ∈ es ∧ (Server.entity_id e ∉ Server.known_nodes k))
  ∧ (∀ r, r ∈ nr ↔
          r ∈ rs ∧ (Server.relation_id r ∉ Server.known_edges k) ∧
          (Server.source_id r ∈ Server.known_nodes k ∪ Server.entity_ids ne) ∧
          (Server.target_id r ∈ Server.known_nodes k ∪ Server.entity_ids ne))
  ∧ Server.known_nodes k' = Server.known_nodes k ∪ Server.entity_ids ne
  ∧ Server.known_edges k' = Server.known_edges k ∪ Server.relation_ids nr.
Proof.
  unfold Server.merge. split; [|split; [|done]].
  - apply ServerFacts.elem_of_new_entities.
  - apply ServerFacts.elem_of_new_relations.
Qed.

(** C3. No dangling relation. Whatever the extraction returns and whatever
    reached the server since it started, every relation of the shared graph
    has both endpoints in its entity set. In every delta the merge function
    computes, every relation has both endpoints among the known and the
    newly emitted entity ids. And the page of a connection, which handles
    the frames the server hands to it, never shows an edge whose source or
    target is not on display, provided it showed none to begin with. *)
Theorem no_dangling_relation :
  (∀ (extract : list N → option (list Server.Entity * list Server.Relation))
     (on_malformed : Server.malformed_policy) (inputs : list Server.input),
     Server.well_formed
       (Server.graph (Server.after extract on_malformed Server.start inputs)))
  ∧ (∀ (k : Server.Known) (es : list Server.Entity) (rs : list Server.Relation),
       Forall (λ r,
                 Server.source_id r
                   ∈ Server.known_nodes k ∪ Server.entity_ids (Server.merge k es rs).1.1
               ∧ Server.target_id r
                   ∈ Server.known_nodes k ∪ Server.entity_ids (Server.merge k es rs).1.1)
              (Server.merge k es rs).1.2)
  ∧ (∀ (extract : list N → option (list Server.Entity * list Server.Relation))
       (on_malformed : Server.malformed_policy) (c : nat)
       (page : state) (inputs : list Server.input),
       endpoints_present (shown (cyRef page)) →
       endpoints_present
         (shown (cyRef (System.sys_run extract on_malformed c page inputs).2))).
Proof.
  split; [apply ServerFacts.after_well_formed|]. split; [|apply sys_run_endpoints].
  intros k es rs. apply Forall_forall. intros r Hr. cbn [fst snd Server.merge] in *.
  by apply ServerFacts.elem_of_new_relations in Hr as (_ & _ & Hs & Ht).
Qed.

Lemma no_dangling_relation_witness :
  endpoints_present (shown (cyRef fresh_page))
  ∧ endpoints_present
      (shown (cyRef (System.sys_run Example.extract Server.Ignore 1 fresh_page
                       [Server.Accept 1; Server.Accept 2;
                        Server.Receive 2 Example.john_frame []]).2)).
Proof.
  assert (H : endpoints_present (shown (cyRef fresh_page))).
  { intros ele s Hin. vm_compute in Hin. by apply elem_of_nil in Hin. }
  split; [exact H|].
  exact (proj2 (proj2 no_dangling_relation) Example.extract Server.Ignore 1%nat
           fresh_page _ H).
Defined.

(** C4. A [clear] message empties the graph. On the client, a frame that
    parses to a message of type [clear] leaves no element on display. On
    the server, after a [clear] frame the shared graph is empty, and the
    [initial] snapshot sent to a connection accepted next has no node and
    no edge. *)
Theorem clear_empties_graph :
  (∀ (st : state) (frame : jsstring) (message : json),
     JSON_parse frame = Some message →
     message_type message = Some (lit "clear") →
     shown (cyRef (step st (WsMessage frame))) = [])
  ∧ (∀ (extract : list N → option (list Server.Entity * list Server.Relation))
       (on_malformed : Server.malformed_policy)
       (st : Server.broadcaster) (c c' : nat) (frame : jsstring) (closed : list nat),
       Server.decode frame = Some Server.Clear →
       let st' := fst (Server.handle extract on_malformed st
                         (Server.Receive c frame closed)) in
       Server.graph st' = Server.empty_graph
       ∧ snd (Server.handle extract on_malformed st' (Server.Accept c'))
         = [(c', jtext "{'type':'initial','data':{'nodes':[],'edges':[]}}")]).
Proof.
  split.
  - intros st frame message Hparse Htype. cbn [step cyRef set_cyRef].
    unfold onmessage. rewrite Hparse. unfold on_parsed, message_type in *.
    destruct (get (Some message) (lit "type")) as [[[]|]|]; try done.
    injection Htype as ->. simpl. by destruct (cyRef st).
  - intros extract on_malformed st c c' frame closed Hdec. simpl.
    rewrite Hdec. simpl. split; [done|]. reflexivity.
Qed.

Lemma clear_empties_graph_witness :
  (JSON_parse (jtext " { 'type' : 'clear' } ") = Some clear_message
   ∧ shown (cyRef (step john_page (WsMessage (jtext " { 'type' : 'clear' } ")))) = [])
  ∧ (Server.decode (jtext "{'type':'clear'}") = Some Server.Clear
     ∧ Server.graph (fst (Server.handle Example.extract Server.Ignore Example.busy
                            (Server.Receive 2 (jtext "{'type':'clear'}") [])))
       = Server.empty_graph).
Proof.
  split; (split; [vm_compute; reflexivity|]).
  - apply (proj1 clear_empties_graph john_page _ clear_message).
    + vm_compute. reflexivity.
    + vm_compute. reflexivity.
  - apply (proj2 clear_empties_graph Example.extract Server.Ignore Example.busy
             2%nat 3%nat (jtext "{'type':'clear'}") []).
    vm_compute. reflexivity.
Defined.

(** C5. Submitting text whose trimmed form is empty does nothing: no frame
    is sent, so nothing is extracted, the input stays, the graph stays. *)
Theorem blank_submit_is_noop (st : state) :
  trim (inputText st) = [] → step st Submit = st.
Proof.
  intros Hblank. cbn [step]. unfold handleSubmit. by rewrite Hblank.
Qed.

Lemma blank_submit_is_noop_witness :
  trim (inputText blank_page) = [] ∧ step blank_page Submit = blank_page.
Proof.
  split; [vm_compute; reflexivity|].
  apply blank_submit_is_noop. vm_compute. reflexivity.
Defined.

(** C6. The frames the client sends are the two of the protocol. One event
    sends at most one frame: a submission sends the serialised
    [{type:'text', text:inputText}], a click on Clear the serialised
    [{type:'clear'}], and no other event sends anything. So whatever
    happened to the page since it was loaded, every frame it sent is one of
    the two texts of the protocol, and parses to the message it stands
    for. *)
Theorem client_frames :
  (∀ (st : state) (e : event),
     sent (step st e) = sent st
     ∨ (e = Submit ∧
        sent (step st e) = sent st ++ [JSON_stringify (text_message (inputText st))])
     ∨ (e = ClickClear ∧
        sent (step st e) = sent st ++ [JSON_stringify clear_message]))
  ∧ (∀ events : list event,
       Forall protocol_frame (sent (run events initial_state))).
Proof.
  split; [apply step_sent|].
  induction events as [|e es IH] using rev_ind; [constructor|].
  rewrite run_snoc.
  destruct (step_sent (run es initial_state) e) as [->|[[_ ->]|[_ ->]]];
    [done| |].
  - apply Forall_app. split; [done|]. constructor; [|constructor].
    right. exists (inputText (run es initial_state)).
    split; [|apply text_message_roundtrip].
    simpl. unfold QuoteJSONString. simpl. by rewrite <- !app_assoc.
  - apply Forall_app. split; [done|]. constructor; [|constructor].
    left. split; reflexivity.
Qed.

(** C7. Broadcast uniformity: when a text submission yields a non-empty
    delta, the frames the server hands out are one and the same [update]
    payload, one for each live connection that is not found closed. *)
Theorem broadcast_uniform
    (extract : list N → option (list Server.Entity * list Server.Relation))
    (on_malformed : Server.malformed_policy)
    (st : Server.broadcaster) (c : nat) (frame text : jsstring) (closed : list nat)
    (es : list Server.Entity) (rs : list Server.Relation) :
  Server.decode frame = Some (Server.Text text) →
  trim text ≠ [] →
  extract text = Some (es, rs) →
  ((Server.merge (Server.known (Server.graph st)) es rs).1.1 ≠ []
   ∨ (Server.merge (Server.known (Server.graph st)) es rs).1.2 ≠ []) →
  let payload :=
    JSON_stringify
      (Server.update_message
         (Server.merge (Server.known (Server.graph st)) es rs).1.1
         (Server.merge (Server.known (Server.graph st)) es rs).1.2) in
  snd (Server.handle extract on_malformed st (Server.Receive c frame closed))
  = (λ c', (c', payload)) <$> filter (λ c', c' ∉ closed) (Server.live st).
Proof.
  intros Hdec Hblank Hext Hdelta. cbn [Server.merge fst snd] in *.
  cbn [Server.handle]. rewrite Hdec.
  unfold Server.handle_text, Server.merge. rewrite decide_False by done.
  rewrite Hext.
  destruct (Server.new_entities _ es), (Server.new_relations _ es rs); try done.
  by destruct Hdelta.
Qed.

Lemma broadcast_uniform_witness :
  (Server.decode Example.john_frame
   = Some (Server.Text (lit "John bought a new car from the dealership."))
   ∧ trim (lit "John bought a new car from the dealership.") ≠ []
   ∧ Example.extract (lit "John bought a new car from the dealership.")
     = Some ([Example.john; Example.car], [Example.bought]))
  ∧ snd (Server.handle Example.extract Server.Ignore Example.three
           (Server.Receive 1 Example.john_frame [2%nat]))
    = [(3%nat, john_update); (1%nat, john_update)].
Proof.
  split.
  { repeat split; vm_compute; (reflexivity || discriminate). }
  etrans.
  - apply (broadcast_uniform Example.extract Server.Ignore Example.three 1%nat
             Example.john_frame
             (lit "John bought a new car from the dealership.") [2%nat]
             [Example.john; Example.car] [Example.bought]).
    + vm_compute. reflexivity.
    + vm_compute. discriminate.
    + vm_compute. reflexivity.
    + left. vm_compute. discriminate.
  - vm_compute. reflexivity.
Defined.

(** C8. A malformed frame is harmless: the server handles it without
    failing, sends nothing, keeps the shared graph as it is, and either
    keeps the live connections or drops the one the frame came from. *)
Theorem malformed_frame_harmless
    (extract : list N → option (list Server.Entity * list Server.Relation))
    (on_malformed : Server.malformed_policy)
    (st : Server.broadcaster) (c : nat) (frame : jsstring) (closed : list nat) :
  Server.decode frame = None →
  ∃ st',
    Server.handle extract on_malformed st (Server.Receive c frame closed) = (st', [])
    ∧ Server.graph st' = Server.graph st
    ∧ (Server.live st' = Server.live st
       ∨ Server.live st' = filter (λ c', c' ≠ c) (Server.live st)).
Proof.
  intros Hdec. cbn [Server.handle]. rewrite Hdec. destruct on_malformed.
  - exists st. auto.
  - exists (Server.drop c st). cbn [Server.drop Server.graph Server.live]. auto.
Qed.

Lemma malformed_frame_harmless_witness :
  Server.decode (jtext "{'type':'text','text':42}") = None
  ∧ ∃ st',
      Server.handle Example.extract Server.CloseConnection Example.busy
        (Server.Receive 2 (jtext "{'type':'text','text':42}") []) = (st', [])
      ∧ Server.graph st' = Server.graph Example.busy
      ∧ (Server.live st' = Server.live Example.busy
         ∨ Server.live st' = filter (λ c', c' ≠ 2%nat) (Server.live Example.busy)).
Proof.
  split; [vm_compute; reflexivity|].
  apply (malformed_frame_harmless Example.extract Server.CloseConnection
           Example.busy 2%nat (jtext "{'type':'text','text':42}") []).
  vm_compute. reflexivity.
Defined.

(** C9. A frame that parses to a message whose type is none of [initial],
    [update] and [clear] leaves the page as it was: the elements, the
    layout, and all the rest. *)
Theorem other_types_change_nothing
    (st : state) (frame : jsstring) (message : json) :
  JSON_parse frame = Some message →
  message_type message ≠ Some (lit "initial") →
  message_type message ≠ Some (lit "update") →
  message_type message ≠ Some (lit "clear") →
  step st (WsMessage frame) = st.
Proof.
  intros Hparse Hi Hu Hc. cbn [step]. unfold onmessage. rewrite Hparse.
  unfold on_parsed.
  destruct (get (Some message) (lit "type")) as [type|] eqn:Htype;
    [|apply set_cyRef_same].
  destruct (strict_eq type (lit "initial")) eqn:H1.
  { by apply (strict_eq_message_type _ _ _ Htype) in H1. }
  destruct (strict_eq type (lit "update")) eqn:H2.
  { by apply (strict_eq_message_type _ _ _ Htype) in H2. }
  destruct (strict_eq type (lit "clear")) eqn:H3.
  { by apply (strict_eq_message_type _ _ _ Htype) in H3. }
  apply set_cyRef_same.
Qed.

Lemma other_types_change_nothing_witness :
  JSON_parse (jtext "{'type':'ping','data':{'nodes':[]}}") = Some ping_message
  ∧ step john_page (WsMessage (jtext "{'type':'ping','data':{'nodes':[]}}"))
    = john_page.
Proof.
  split; [vm_compute; reflexivity|].
  apply (other_types_change_nothing john_page _ ping_message).
  - vm_compute. reflexivity.
  - vm_compute. discriminate.
  - vm_compute. discriminate.
  - vm_compute. discriminate.
Defined.

(** C10. The handler has no guard around [JSON.parse]: on a frame that is
    not JSON text it throws a [SyntaxError], with the core untouched. *)
Theorem non_json_frame_throws (frame : jsstring) (cyRef : option Cy.core) :
  JSON_parse frame = None →
  onmessage frame cyRef = (cyRef, Throw SyntaxError).
Proof. intros Hparse. unfold onmessage. by rewrite Hparse. Qed.

Lemma non_json_frame_throws_witness :
  JSON_parse (lit "Internal Server Error") = None
  ∧ onmessage (lit "Internal Server Error") (Some Cy.create)
    = (Some Cy.create, Throw SyntaxError).
Proof.
  split; [vm_compute; reflexivity|].
  apply non_json_frame_throws. vm_compute. reflexivity.
Defined.

(** * More properties of the client *)

(** ** Trimming *)





(** ** The form and the buttons *)


(** X1. Submitting twice in a row sends at most once: a submission that
    goes out empties the input, so the next one finds nothing to send, and
    one that does not go out changes nothing. *)
Theorem double_submit_sends_once (st : state) :
  step (step st Submit) Submit = step st Submit.
Proof.
  cbn [step]. unfold handleSubmit at 2 3.
  destruct (truthy_string (trim (inputText st)) && socket_open st) eqn:Hguard.
  - unfold handleSubmit. reflexivity.
  - unfold handleSubmit. by rewrite Hguard.
Qed.




(** X4. The user and the socket keep to their own halves of the page.
    Whatever the user does (typing, submitting, clicking Clear or an
    example), the graph on display and the connection stay as they are;
    whatever the socket does (open, close, error, message), the input stays
    as typed and nothing is sent. *)
Theorem user_and_socket_apart (es : list event) (st : state) :
  (forallb user_event es = true →
   cyRef (run es st) = cyRef st ∧ wsRef (run es st) = wsRef st
   ∧ isConnected (run es st) = isConnected st)
  ∧ (forallb socket_event es = true →
     inputText (run es st) = inputText st ∧ sent (run es st) = sent st).
Proof.
  split.
  - revert st. induction es as [|e es IH]; intros st Hall; [done|].
    cbn [forallb] in Hall. apply andb_true_iff in Hall as [He Hes].
    change (run (e :: es) st) with (run es (step st e)).
    destruct (IH (step st e) Hes) as (-> & -> & ->).
    destruct e; try done; cbn [step];
      unfold handleSubmit, handleClear; by repeat case_match.
  - revert st. induction es as [|e es IH]; intros st Hall; [done|].
    cbn [forallb] in Hall. apply andb_true_iff in Hall as [He Hes].
    change (run (e :: es) st) with (run es (step st e)).
    destruct (IH (step st e) Hes) as (-> & ->).
    destruct e; try done; cbn [step];
      unfold set_ready; by repeat case_match.
Qed.

Lemma user_and_socket_apart_witness :
  (forallb user_event [Change (lit "hello"); Submit; ClickClear; ClickExample 0] = true
   ∧ cyRef (run [Change (lit "hello"); Submit; ClickClear; ClickExample 0] john_page)
     = cyRef john_page)
  ∧ (forallb socket_event [WsMessage john_update; WsError; WsClose] = true
     ∧ inputText (run [WsMessage john_update; WsError; WsClose] typing_page)
       = inputText typing_page).
Proof.
  split; (split; [vm_compute; reflexivity|]).
  - apply (proj1 (user_and_socket_apart
             [Change (lit "hello"); Submit; ClickClear; ClickExample 0] john_page)).
    vm_compute. reflexivity.
  - apply (proj2 (user_and_socket_apart
             [WsMessage john_update; WsError; WsClose] typing_page)).
    vm_compute. reflexivity.
Defined.

(** X5. Nothing is sent before the socket is open: from a page whose
    socket is not open, whatever happens short of the socket opening, no
    frame is handed to [send] and the socket stays not open. *)
Theorem nothing_sent_before_open (es : list event) (st : state) :
  socket_open st = false →
  forallb (λ e, negb (is_open_event e)) es = true →
  sent (run es st) = sent st ∧ socket_open (run es st) = false.
Proof.
  revert st. induction es as [|e es IH]; intros st Hclosed Hall; [done|].
  cbn [forallb] in Hall. apply andb_true_iff in Hall as [He Hes].
  change (run (e :: es) st) with (run es (step st e)).
  assert (Hstep : sent (step st e) = sent st ∧ socket_open (step st e) = false).
  { destruct e; cbn [step]; try done.
    - unfold mount. by destruct (cyRef st), container; cbn.
    - unfold unmount. by rewrite Hclosed.
    - unfold handleSubmit. by rewrite Hclosed, andb_false_r.
    - unfold handleClear. by rewrite Hclosed.
    - by destruct (examples !! i).
    - unfold set_ready, socket_open in *.
      destruct (wsRef st) eqn:Hws; cbn; by rewrite ?Hws. }
  destruct Hstep as [Hsent Hclosed'].
  destruct (IH (step st e) Hclosed' Hes) as [-> ->]. done.
Qed.

Lemma nothing_sent_before_open_witness :
  (socket_open typing_page = true
   ∧ socket_open (step typing_page (Mount true)) = false
   ∧ forallb (λ e, negb (is_open_event e))
       [Submit; ClickClear; WsMessage john_update; WsClose] = true)
  ∧ sent (run [Submit; ClickClear; WsMessage john_update; WsClose]
            (step typing_page (Mount true))) = [].
Proof.
  split; [repeat split; vm_compute; reflexivity|].
  apply (nothing_sent_before_open
           [Submit; ClickClear; WsMessage john_update; WsClose]
           (step typing_page (Mount true))).
  - vm_compute. reflexivity.
  - vm_compute. reflexivity.
Defined.

(** ** What the message handler keeps *)

Lemma strict_eq_decide (m : json) (t : option json) (s : jsstring) :
  get (Some m) (lit "type") = Normal t →
  strict_eq t s = bool_decide (message_type m = Some s).
Proof.
  intros Hget. apply eq_true_iff_eq.
  rewrite bool_decide_eq_true. by apply strict_eq_message_type.
Qed.

Lemma graph_branch (m : json) (t : option json) :
  get (Some m) (lit "type") = Normal t →
  strict_eq t (lit "initial") || strict_eq t (lit "update") = is_graph_message m.
Proof.
  intros Hget. unfold is_graph_message.
  by rewrite !(strict_eq_decide m t _ Hget).
Qed.

Lemma no_type_no_graph (m : json) (e : error) :
  get (Some m) (lit "type") = Throw e → is_graph_message m = false.
Proof.
  intros Hget. unfold is_graph_message, message_type. by rewrite Hget.
Qed.

Lemma add_if_absent_keeps (ele : json) (cy : Cy.core) :
  Cy.elements cy `prefix_of` Cy.elements (fst (add_if_absent ele cy))
  ∧ Cy.layout_runs (fst (add_if_absent ele cy)) = Cy.layout_runs cy.
Proof.
  destruct (add_if_absent_cases ele cy) as [->|[-> _]]; [done|].
  split; [|done]. by apply prefix_app_r.
Qed.

Lemma for_each_keeps (items : list json) (cy : Cy.core) :
  Cy.elements cy `prefix_of` Cy.elements (fst (for_each add_if_absent items cy))
  ∧ Cy.layout_runs (fst (for_each add_if_absent items cy)) = Cy.layout_runs cy.
Proof.
  revert cy. induction items as [|x items IH]; intros cy; [done|].
  simpl. unfold mbind, eff_bind. destruct (add_if_absent_keeps x cy) as [Hp Hl].
  destruct (add_if_absent x cy) as [cy' [[]|e]]; simpl in *; [|done].
  destruct (IH cy') as [Hp' Hl']. split; [by etrans | congruence].
Qed.

Lemma forEach_keeps (v : option json) (cy : Cy.core) :
  Cy.elements cy `prefix_of` Cy.elements (fst (forEach v add_if_absent cy))
  ∧ Cy.layout_runs (fst (forEach v add_if_absent cy)) = Cy.layout_runs cy.
Proof.
  destruct v as [[]|]; simpl; try done. apply for_each_keeps.
Qed.

(** The body of the first branch removes nothing, and runs the layout when
    it gets to its end. *)
Lemma merge_elements_keeps (nodes edges : option json) (cy : Cy.core) :
  Cy.elements cy `prefix_of` Cy.elements (fst (merge_elements nodes edges cy))
  ∧ Cy.layout_runs (fst (merge_elements nodes edges cy))
    = if completes (snd (merge_elements nodes edges cy))
      then S (Cy.layout_runs cy) else Cy.layout_runs cy.
Proof.
  unfold merge_elements, mbind, eff_bind.
  destruct (forEach_keeps nodes cy) as [Hp1 Hl1].
  destruct (forEach nodes add_if_absent cy) as [cy1 [[]|e]]; simpl in *; [|done].
  destruct (forEach_keeps edges cy1) as [Hp2 Hl2].
  destruct (forEach edges add_if_absent cy1) as [cy2 [[]|e]]; simpl in *.
  - split; [by etrans | congruence].
  - split; [by etrans | congruence].
Qed.

Lemma on_parsed_keeps (message : json) (cyRef : option Cy.core) :
  message_type message ≠ Some (lit "clear") →
  shown cyRef `prefix_of` shown (fst (on_parsed message cyRef)).
Proof.
  intros Hclear. unfold on_parsed.
  destruct (get (Some message) (lit "type")) as [type|] eqn:Htype; [|done].
  destruct (_ || _).
  - destruct (get (Some message) (lit "data")) as [data|]; [|done].
    destruct (get data (lit "nodes")) as [nodes|], (get data (lit "edges")) as [edges|];
      try done.
    destruct cyRef as [cy|]; [|done].
    destruct (merge_elements_keeps nodes edges cy) as [Hp _].
    by destruct (merge_elements nodes edges cy).
  - rewrite (strict_eq_decide message type _ Htype).
    by rewrite bool_decide_eq_false_2.
Qed.

Lemma step_keeps (st : state) (e : event) :
  is_clear_event e = false →
  shown (cyRef st) `prefix_of` shown (cyRef (step st e)).
Proof.
  intros Hclear. destruct e; cbn [step]; try done.
  - unfold mount. destruct (cyRef st) eqn:Hc; simpl; [by rewrite Hc|].
    destruct container; simpl; [apply prefix_nil | by rewrite Hc].
  - unfold unmount. by destruct (socket_open st).
  - unfold handleSubmit. by destruct (_ && _).
  - unfold handleClear. by destruct (socket_open st).
  - by destruct (examples !! i).
  - unfold set_ready. by destruct (wsRef st).
  - unfold set_ready. by destruct (wsRef st).
  - cbn [is_clear_event] in Hclear. unfold is_clear_frame in Hclear.
    cbn [set_cyRef cyRef]. unfold onmessage.
    destruct (JSON_parse data) as [message|]; [|done].
    apply on_parsed_keeps. by apply bool_decide_eq_false in Hclear.
Qed.

Lemma first_with_id_prefix (s : jsstring) (l l' : list json) (ele : json) :
  l `prefix_of` l' →
  first_with_id s l = Some ele → first_with_id s l' = Some ele.
Proof.
  intros [k ->]. unfold first_with_id. rewrite filter_app.
  by destruct (filter _ l).
Qed.

(** X6. Only a [clear] message takes anything off the display. Along
    events none of which is a [clear] message, what was on display stays,
    in its order, at the head of what is on display afterwards; and the
    element found under an id stays the one found under it: a later message
    that brings the id again, under another label or type, changes
    nothing of it. *)
Theorem nothing_removed_without_clear (es : list event) (st : state) :
  forallb (λ e, negb (is_clear_event e)) es = true →
  shown (cyRef st) `prefix_of` shown (cyRef (run es st))
  ∧ ∀ s ele, first_with_id s (shown (cyRef st)) = Some ele →
             first_with_id s (shown (cyRef (run es st))) = Some ele.
Proof.
  intros Hall.
  assert (Hp : shown (cyRef st) `prefix_of` shown (cyRef (run es st))).
  { revert st. induction es as [|e es IH]; intros st; [done|].
    cbn [forallb] in Hall. apply andb_true_iff in Hall as [He Hes].
    change (run (e :: es) st) with (run es (step st e)).
    etrans; [apply step_keeps; by apply negb_true_iff | by apply IH]. }
  split; [done|]. intros s ele. by apply first_with_id_prefix.
Qed.

Lemma nothing_removed_without_clear_witness :
  (forallb (λ e, negb (is_clear_event e))
     [WsMessage johnny_update; Submit; Mount true; WsMessage (lit "oops")] = true
   ∧ first_with_id (lit "john") (shown (cyRef john_page)) = Some john_element)
  ∧ first_with_id (lit "john")
      (shown (cyRef (run [WsMessage johnny_update; Submit; Mount true;
                          WsMessage (lit "oops")] john_page)))
    = Some john_element.
Proof.
  split; [split; vm_compute; reflexivity|].
  apply (proj2 (nothing_removed_without_clear
           [WsMessage johnny_update; Submit; Mount true; WsMessage (lit "oops")]
           john_page ltac:(vm_compute; reflexivity))).
  vm_compute. reflexivity.
Defined.

(** ** How the message handler ends *)



(** X8. A graph message without a batch throws before the core is looked
    at: when the [type] is [initial] or [update] and [data] is missing or
    [null], the handler throws a [TypeError] and leaves the page as it is,
    also when there is no core yet. *)
Theorem graph_message_without_data_throws (frame : jsstring) (message : json)
    (cyRef : option Cy.core) :
  JSON_parse frame = Some message →
  is_graph_message message = true →
  get (Some message) (lit "data") = Normal None
  ∨ get (Some message) (lit "data") = Normal (Some JNull) →
  onmessage frame cyRef = (cyRef, Throw TypeError).
Proof.
  intros Hparse Hgraph Hdata. unfold onmessage. rewrite Hparse. unfold on_parsed.
  destruct (get (Some message) (lit "type")) as [type|e] eqn:Htype.
  - rewrite (graph_branch message type Htype), Hgraph.
    by destruct Hdata as [-> | ->].
  - by rewrite (no_type_no_graph message e Htype) in Hgraph.
Qed.

Lemma graph_message_without_data_throws_witness :
  (JSON_parse bare_update = Some (JObj [(lit "type", JStr (lit "update"))])
   ∧ is_graph_message (JObj [(lit "type", JStr (lit "update"))]) = true)
  ∧ onmessage bare_update None = (None, Throw TypeError).
Proof.
  split; [split; vm_compute; reflexivity|].
  apply (graph_message_without_data_throws bare_update
           (JObj [(lit "type", JStr (lit "update"))]) None).
  - vm_compute. reflexivity.
  - vm_compute. reflexivity.
  - left. vm_compute. reflexivity.
Defined.



(** X10. The core is never lost, and the layout runs once for each graph
    message that is handled to its end, and at no other time: after any
    frame a page that had a core has one, and the number of its layout runs
    has gone up by one when the frame is a graph message and the handler
    did not throw, and is as before otherwise. A batch that brings nothing
    new is laid out again all the same. *)
Theorem layout_runs_once (frame : jsstring) (cy : Cy.core) :
  ∃ cy', fst (onmessage frame (Some cy)) = Some cy'
         ∧ Cy.layout_runs cy'
           = if is_graph_frame frame && completes (snd (onmessage frame (Some cy)))
             then S (Cy.layout_runs cy) else Cy.layout_runs cy.
Proof.
  unfold is_graph_frame, onmessage.
  destruct (JSON_parse frame) as [message|]; [|by exists cy].
  unfold on_parsed.
  destruct (get (Some message) (lit "type")) as [type|e] eqn:Htype.
  - rewrite (graph_branch message type Htype).
    destruct (is_graph_message message).
    + destruct (get (Some message) (lit "data")) as [data|]; [|by exists cy].
      destruct (get data (lit "nodes")) as [nodes|],
               (get data (lit "edges")) as [edges|]; try by exists cy.
      destruct (merge_elements_keeps nodes edges cy) as [_ Hl].
      destruct (merge_elements nodes edges cy) as [cy' c]. by exists cy'.
    + destruct (strict_eq type (lit "clear")); eexists; split; done.
  - rewrite (no_type_no_graph message e Htype). by exists cy.
Qed.

(** ** One name space of ids *)

(** An element found after a loop under an id that was taken before the
    loop was there before the loop. *)
Lemma for_each_known (items : list json) (cy : Cy.core) (ele : json) (s : jsstring) :
  Cy.id ele = Some s →
  s ∈ omap Cy.id (Cy.elements cy) →
  ele ∈ Cy.elements (fst (for_each add_if_absent items cy)) →
  ele ∈ Cy.elements cy.
Proof.
  intros Hid. revert cy. induction items as [|x items IH]; intros cy Hs; [done|].
  simpl. unfold mbind, eff_bind.
  pose proof (add_if_absent_grows x cy) as Hgrow.
  pose proof (add_if_absent_cases x cy) as Hcases.
  assert (Hback : ele ∈ Cy.elements (fst (add_if_absent x cy)) →
                  ele ∈ Cy.elements cy).
  { destruct Hcases as [->|[-> Hfree]]; [done|]. simpl.
    intros [Hele | Hele%list_elem_of_singleton]%elem_of_app; [done|].
    subst x. by destruct (Hfree s Hid). }
  destruct (add_if_absent x cy) as [cy' [[]|e]]; simpl in *.
  - intros Hele. apply Hback. apply IH; [by apply Hgrow | done].
  - done.
Qed.

Lemma node_is_no_edge (n : node) (e : edge) : node_element n ≠ edge_element e.
Proof. intros H. apply (f_equal size) in H. discriminate H. Qed.

(** X11. Nodes and edges share one name space of ids. In a graph message
    in the wire format, an edge whose id is the id of a node of the same
    message is never put on display: by the time the edges are looked at
    the id is taken. *)
Theorem edge_under_node_id_dropped (type : jsstring) (ns : list node)
    (es : list edge) (cy : Cy.core) (e : edge) :
  type = lit "initial" ∨ type = lit "update" →
  edge_id e ∈ node_id <$> ns →
  edge_element e ∉ Cy.elements cy →
  edge_element e
  ∉ shown (fst (onmessage (JSON_stringify (graph_message type ns es)) (Some cy))).
Proof.
  intros Htype Hin Hnot. unfold onmessage.
  rewrite JSON_parse_stringify by apply graph_message_plain.
  rewrite on_parsed_graph_message by done.
  unfold merge_elements, mbind, eff_bind, update. cbn [forEach].
  destruct (graph_message_batch type ns es) as (_ & Hn & He).
  destruct (for_each_covers _ cy Hn) as (cy1 & Hrun1 & Hall1). rewrite Hrun1.
  destruct (for_each_covers _ cy1 He) as (cy2 & Hrun2 & Hall2). rewrite Hrun2.
  simpl. intros Hele.
  assert (Hele1 : edge_element e ∈ Cy.elements cy1).
  { apply (for_each_known (edge_element <$> es) cy1 _ (edge_id e)).
    - apply edge_element_id.
    - apply list_elem_of_fmap in Hin as (n & Heq & Hn').
      assert (Hn'' : node_element n ∈ node_element <$> ns)
        by (apply list_elem_of_fmap; eauto).
      destruct (proj1 (Forall_forall _ _) Hall1 _ Hn'') as (s & Hs & Hs').
      rewrite node_element_id in Hs. injection Hs as <-. by rewrite Heq.
    - by rewrite Hrun2. }
  pose proof (for_each_elements (node_element <$> ns) cy (edge_element e)) as Hfrom.
  rewrite Hrun1 in Hfrom. destruct (Hfrom Hele1) as [Hcy | Hnode]; [done|].
  apply list_elem_of_fmap in Hnode as (n & Heq & _).
  by destruct (node_is_no_edge n e).
Qed.

Lemma edge_under_node_id_dropped_witness :
  (lit "john" ∈ node_id <$> john_nodes
   ∧ edge_element (Edge (lit "john") (lit "john") (lit "car") (lit "likes"))
     ∉ Cy.elements Cy.create)
  ∧ edge_element (Edge (lit "john") (lit "john") (lit "car") (lit "likes"))
    ∉ shown (fst (onmessage
         (JSON_stringify
            (graph_message (lit "update") john_nodes
               [Edge (lit "john") (lit "john") (lit "car") (lit "likes")]))
         (Some Cy.create))).
Proof.
  split; [split; [by left | apply not_elem_of_nil]|].
  apply (edge_under_node_id_dropped (lit "update") john_nodes
           [Edge (lit "john") (lit "john") (lit "car") (lit "likes")]
           Cy.create
           (Edge (lit "john") (lit "john") (lit "car") (lit "likes"))).
  - by right.
  - by left.
  - apply not_elem_of_nil.
Defined.

(** ** The stylesheet and the legend *)

Lemma styled_types_eq :
  styled_types = [lit "PERSON"; lit "ORG"; lit "GPE"; lit "PRODUCT"].
Proof. reflexivity. Qed.

(** X12. The legend tells the truth about the nodes. Whatever element is
    drawn as a node, selected or not, its fill colour is one of the five of
    the legend; it is the one the legend calls Other exactly when the type
    of the node is none of those the stylesheet has a rule for; and
    selecting the node changes its border, to width 4 in gold, and not its
    fill. *)
Theorem legend_matches_stylesheet (ele : json) (selected : bool) :
  (∃ colour name,
     computed (Drawn nodes_group ele selected) (lit "background-color")
       = Some (Text colour)
     ∧ (colour, name) ∈ legend
     ∧ (name = lit "Other"
        ↔ ∀ t, data_string (lit "type") ele = Some t → t ∉ styled_types))
  ∧ computed (Drawn nodes_group ele true) (lit "background-color")
    = computed (Drawn nodes_group ele false) (lit "background-color")
  ∧ computed (Drawn nodes_group ele true) (lit "border-color")
    = Some (Text (lit "#ffd700"))
  ∧ computed (Drawn nodes_group ele true) (lit "border-width")
    = Some (Number (lit "4")).
Proof.
  rewrite styled_types_eq.
  destruct (data_string (lit "type") ele) as [t|] eqn:Hty.
  - destruct (decide (t = lit "PERSON")) as [-> | HPERSON].
    { styled_case Hty selected (lit "#4caf50") (lit "Person") 0%nat.
      split; [intros [=]|]. intros H. destruct (H _ eq_refl). by left. }
    destruct (decide (t = lit "ORG")) as [-> | HORG].
    { styled_case Hty selected (lit "#ff9800") (lit "Organization") 1%nat.
      split; [intros [=]|]. intros H. destruct (H _ eq_refl). right. by left. }
    destruct (decide (t = lit "GPE")) as [-> | HGPE].
    { styled_case Hty selected (lit "#2196f3") (lit "Location") 2%nat.
      split; [intros [=]|]. intros H. destruct (H _ eq_refl). do 2 right. by left. }
    destruct (decide (t = lit "PRODUCT")) as [-> | HPRODUCT].
    { styled_case Hty selected (lit "#e91e63") (lit "Product") 3%nat.
      split; [intros [=]|]. intros H. destruct (H _ eq_refl). do 3 right. by left. }
    assert (Hother : ∀ property,
              computed (Drawn nodes_group ele selected) property
              = computed (Drawn nodes_group (JObj []) selected) property).
    { intros property. unfold_style Hty.
      by rewrite !bool_decide_eq_false_2 by congruence. }
    assert (Hother' : ∀ property,
              computed (Drawn nodes_group ele true) property
              = computed (Drawn nodes_group (JObj []) true) property).
    { intros property. unfold_style Hty.
      by rewrite !bool_decide_eq_false_2 by congruence. }
    assert (Hother0 : ∀ property,
              computed (Drawn nodes_group ele false) property
              = computed (Drawn nodes_group (JObj []) false) property).
    { intros property. unfold_style Hty.
      by rewrite !bool_decide_eq_false_2 by congruence. }
    rewrite Hother, !Hother', Hother0.
    split; [|repeat split; vm_compute; reflexivity].
    exists (lit "#667eea"), (lit "Other").
    split; [destruct selected; vm_compute; reflexivity|].
    split; [by apply (list_elem_of_lookup_2 _ 4%nat)|].
    split; [|done]. intros _ t' [= <-].
    rewrite !elem_of_cons, elem_of_nil. tauto.
  - styled_case Hty selected (lit "#667eea") (lit "Other") 4%nat.
    split; [|done]. by intros _ t' [=].
Qed.
